(** * Chess robot controller (app_v2.py): model and verified properties

    The controller moves one chess piece: it validates two board
    coordinates, loads the named instruction sequences of [command.json]
    and replays a fixed eleven-stage plan against the robot's tool server.

    The development follows the source file top to bottom:
    - Python values: strings, [str(int)], case mapping, dict literals;
    - [POSITION_DATA], [create_home_sequence], [validate_position];
    - the effects (console, tool server, clock, configuration file) as a
      state-and-exception monad over an explicit [world];
    - [execute_robot_sequence], [execute_command_sequence],
      [move_chess_piece], [main] and the [__main__] block;
    - the vocabulary of the properties (coordinates, the validator's rules
      as specified, the actions of a run, failed requests);
    - the properties, one section per topic. *)

From Stdlib Require Import Ascii String ZArith QArith DecimalString.
From stdpp Require Import gmap strings list fin_maps.

Local Open Scope string_scope.
Local Open Scope list_scope.
Local Open Scope Z_scope.

(** ** Python strings

    A [str] is modelled as a [string] with one [ascii] per character, which
    is exact for ASCII text; every literal compared against in the source is
    ASCII. *)

Module Py.

(** [len(s)]. *)
Definition len (s : string) : nat := String.length s.

(** [s[i]]: the one-character string at index [i]. Python raises
    [IndexError] out of range; both uses in the source are guarded by
    [len(position) != 2], and out of range this gives the empty string. *)
Definition item (s : string) (i : nat) : string := String.substring i 1 s.

(** [sub in s] on strings: [sub] occurs in [s] as a substring. *)
Fixpoint contains (sub s : string) : bool :=
  String.prefix sub s ||
  match s with
  | EmptyString => false
  | String _ rest => contains sub rest
  end.

(** [str(n)] for an [int]. *)
Definition str (n : Z) : string := NilZero.string_of_int (Z.to_int n).

Definition lower_char (c : ascii) : ascii :=
  let n := nat_of_ascii c in
  if (65 <=? n)%nat && (n <=? 90)%nat then ascii_of_nat (n + 32) else c.

Definition upper_char (c : ascii) : ascii :=
  let n := nat_of_ascii c in
  if (97 <=? n)%nat && (n <=? 122)%nat then ascii_of_nat (n - 32) else c.

Fixpoint map_chars (f : ascii -> ascii) (s : string) : string :=
  match s with
  | EmptyString => EmptyString
  | String c rest => String (f c) (map_chars f rest)
  end.

(** [s.lower()] and [s.upper()]. *)
Definition lower : string -> string := map_chars lower_char.
Definition upper : string -> string := map_chars upper_char.

(** [s * n] and [sep.join(parts)]. *)
Fixpoint repeat (s : string) (n : nat) : string :=
  match n with
  | O => EmptyString
  | S n' => s +:+ repeat s n'
  end.

Fixpoint join (sep : string) (parts : list string) : string :=
  match parts with
  | [] => EmptyString
  | [p] => p
  | p :: rest => p +:+ sep +:+ join sep rest
  end.

(** The newline character written [\n] in the source. *)
Definition nl : string := String (ascii_of_nat 10) EmptyString.

(** A dict literal [{k1: v1, k2: v2, ...}]: entries are stored left to
    right, so a repeated key keeps its last value. *)
Definition dict {V} (entries : list (string * V)) : gmap string V :=
  foldl (fun m kv => <[kv.1 := kv.2]> m) ∅ entries.

End Py.

(** ** The position table *)

Record PositionEntry := { forward : Z; rotation : Z }.

Definition entry (f r : Z) : PositionEntry := {| forward := f; rotation := r |}.

Definition position_entries : list (string * PositionEntry) := [
  (* Column A (left edge, 90 degrees left rotation) *)
  ("a8", entry 30 (-90)); ("a7", entry 70 (-90)); ("a6", entry 120 (-90));
  ("a5", entry 150 (-90)); ("a4", entry 180 (-90)); ("a3", entry 210 (-90));
  ("a2", entry 240 (-90)); ("a1", entry 270 (-90));
  (* Column B (45 degrees left rotation) *)
  ("b8", entry 42 (-45)); ("b7", entry 98 (-45)); ("b6", entry 169 (-45));
  ("b5", entry 212 (-45)); ("b4", entry 254 (-45)); ("b3", entry 297 (-45));
  ("b2", entry 339 (-45)); ("b1", entry 382 (-45));
  (* Column C (22 degrees left rotation) *)
  ("c8", entry 32 (-22)); ("c7", entry 76 (-22)); ("c6", entry 130 (-22));
  ("c5", entry 163 (-22)); ("c4", entry 195 (-22)); ("c3", entry 228 (-22));
  ("c2", entry 260 (-22)); ("c1", entry 292 (-22));
  (* Column D (no rotation, robot aligned) *)
  ("d8", entry 30 0); ("d7", entry 70 0); ("d6", entry 120 0);
  ("d5", entry 150 0); ("d4", entry 180 0); ("d3", entry 210 0);
  ("d2", entry 240 0); ("d1", entry 270 0);
  (* Column E (22 degrees right rotation) *)
  ("e8", entry 32 22); ("e7", entry 76 22); ("e6", entry 130 22);
  ("e5", entry 163 22); ("e4", entry 195 22); ("e3", entry 228 22);
  ("e2", entry 260 22); ("e1", entry 292 22);
  (* Column F (45 degrees right rotation) *)
  ("f8", entry 42 45); ("f7", entry 98 45); ("f6", entry 169 45);
  ("f5", entry 212 45); ("f4", entry 254 45); ("f3", entry 297 45);
  ("f2", entry 339 45); ("f1", entry 382 45);
  (* Column G (67 degrees right rotation) *)
  ("g8", entry 78 67); ("g7", entry 179 67); ("g6", entry 307 67);
  ("g5", entry 384 67); ("g4", entry 461 67); ("g3", entry 538 67);
  ("g2", entry 614 67); ("g1", entry 691 67);
  (* Column H (90 degrees right rotation) *)
  ("h8", entry 30 90); ("h7", entry 70 90); ("h6", entry 120 90);
  ("h5", entry 150 90); ("h4", entry 180 90); ("h3", entry 210 90);
  ("h2", entry 240 90); ("h1", entry 270 90)
].

Definition POSITION_DATA : gmap string PositionEntry := Py.dict position_entries.

(** ** Instructions and sequences

    A step of a sequence is a JSON object read through the keys ["wait"],
    ["tool"] and ["args"]; a key that is absent is [None]. The argument
    mapping is passed to the tool server as it is. *)

Definition arguments := list (string * string).

Record step := {
  wait : option Q;
  tool : option string;
  args : option arguments
}.

Definition sequence := list step.

(** [{"tool": t, "args": a}] *)
Definition tool_step (t : string) (a : arguments) : step :=
  {| wait := None; tool := Some t; args := Some a |}.

(** [{"wait": s}] *)
Definition wait_step (s : Q) : step :=
  {| wait := Some s; tool := None; args := None |}.

(** ** create_home_sequence *)

Definition create_home_sequence (forward_distance rotation_angle : Z) : sequence :=
  let rotation_reset := if negb (rotation_angle =? 0) then - rotation_angle else 0 in
  let home_sequence := [
    tool_step "move_robot" [("move_gripper_up_mm", "50")];
    tool_step "move_robot" [("tilt_gripper_down_angle", "-80")];
    tool_step "move_robot" [("move_gripper_up_mm", "-75")];
    tool_step "move_robot" [("move_gripper_forward_mm", "-" +:+ Py.str forward_distance)]
  ] in
  (* Add rotation reset if needed *)
  if negb (rotation_reset =? 0)
  then home_sequence ++
       [tool_step "move_robot" [("rotate_robot_right_angle", Py.str rotation_reset)]]
  else home_sequence.

(** ** validate_position *)

Definition validate_position (position : string) : bool * string :=
  if negb (Py.len position =? 2)%nat then
    (false, "Invalid position format. Use format like 'd7', 'e5', etc.")
  else if negb (Py.contains (Py.item position 0) "abcdefgh") then
    (false, "Invalid column '" +:+ Py.item position 0 +:+ "'. Must be a-h.")
  else if negb (Py.contains (Py.item position 1) "12345678") then
    (false, "Invalid row '" +:+ Py.item position 1 +:+ "'. Must be 1-8.")
  else if negb (bool_decide (is_Some (POSITION_DATA !! position))) then
    (false, "Position '" +:+ position +:+ "' not available in position data.")
  else
    (true, "Valid").

(** ** Effects

    The program talks to three things: the console, the tool server it
    spawns for every sequence, and the file [command.json]. They are the
    fields of [world]. The server is an oracle: [server w n] is the outcome
    of the [n]-th request made to it, so every behaviour of the remote side
    (answers, failures, a user interrupt while waiting) is some [server]. *)

Inductive exn :=
| KeyboardInterrupt
| Exception (message : string).

Inductive outcome :=
| Returns (result : string)
| Fails (message : string)
| Interrupted.

Inductive request :=
| Spawn                                        (* entering stdio_client / ClientSession *)
| Initialize                                   (* session.initialize() *)
| CallTool (name : string) (a : arguments).    (* session.call_tool(name, arguments=a) *)

Inductive event :=
| Request (r : request) (o : outcome)
| Sleep (seconds : Q)                          (* asyncio.sleep *)
| Close.                                       (* leaving the async with blocks *)

(** A printed line keeps the parts of its f-string: literal text and
    strings as [Text], a number of seconds and an argument mapping as the
    values themselves. *)
Inductive piece :=
| Text (s : string)
| Seconds (q : Q)
| Mapping (a : arguments).

Definition line := list piece.

Inductive file :=
| Missing                                      (* open raises FileNotFoundError *)
| Malformed                                    (* json.load raises JSONDecodeError *)
| Json (commands : gmap string sequence).

Record world := {
  command_json : file;
  server : nat -> outcome;
  requests : nat;
  trace : list event;
  console : list line
}.

Definition log_line (l : line) (w : world) : world :=
  {| command_json := command_json w; server := server w; requests := requests w;
     trace := trace w; console := console w ++ [l] |}.

Definition log_event (e : event) (w : world) : world :=
  {| command_json := command_json w; server := server w; requests := requests w;
     trace := trace w ++ [e]; console := console w |}.

Definition next_request (w : world) : world :=
  {| command_json := command_json w; server := server w; requests := S (requests w);
     trace := trace w; console := console w |}.

Inductive result (A : Type) :=
| Ok (a : A)
| Raise (e : exn).
Arguments Ok {A} a.
Arguments Raise {A} e.

Definition M (A : Type) : Type := world -> result A * world.

Definition ret {A} (a : A) : M A := fun w => (Ok a, w).

Definition bind {A B} (m : M A) (k : A -> M B) : M B :=
  fun w =>
    match m w with
    | (Ok a, w') => k a w'
    | (Raise e, w') => (Raise e, w')
    end.

Definition raise {A} (e : exn) : M A := fun w => (Raise e, w).

#[global] Instance M_ret : MRet M := @ret.
#[global] Instance M_bind : MBind M := fun A B k m => bind m k.

(** [try: body except Exception as e: handler e]: only the [Exception]
    class is caught, a [KeyboardInterrupt] passes through. *)
Definition try_except {A} (body : M A) (handler : string -> M A) : M A :=
  fun w =>
    match body w with
    | (Raise (Exception message), w') => handler message w'
    | other => other
    end.

Definition print (l : line) : M unit := fun w => (Ok tt, log_line l w).

Definition sleep (seconds : Q) : M unit := fun w => (Ok tt, log_event (Sleep seconds) w).

Definition send (r : request) : M string :=
  fun w =>
    let o := server w (requests w) in
    let w' := log_event (Request r o) (next_request w) in
    match o with
    | Returns answer => (Ok answer, w')
    | Fails message => (Raise (Exception message), w')
    | Interrupted => (Raise KeyboardInterrupt, w')
    end.

(** [async with stdio_client(..) as (read, write):
       async with ClientSession(read, write) as session: body]:
    once entered, the blocks are left on every path. *)
Definition finally_close {A} (body : M A) : M A :=
  fun w =>
    match body w with
    | (r, w') => (r, log_event Close w')
    end.

Definition async_with_session {A} (body : M A) : M A :=
  send Spawn ;; finally_close body.

Fixpoint for_each {A} (items : list A) (body : A -> M unit) : M unit :=
  match items with
  | [] => ret tt
  | x :: rest => body x ;; for_each rest body
  end.

(** [d[key]]: the value, or [KeyError(key)], whose text is the quoted key. *)
Definition getitem {V} (key : string) (field : option V) : M V :=
  match field with
  | Some v => ret v
  | None => raise (Exception ("'" +:+ key +:+ "'"))
  end.

(** ** execute_robot_sequence *)

Definition execute_step (s : step) : M unit :=
  match wait s with
  | Some wait_time =>
      print [Text "⏳ Waiting for "; Seconds wait_time; Text " seconds..."] ;;
      sleep wait_time
  | None =>
      tool_name ← getitem "tool" (tool s);
      tool_args ← getitem "args" (args s);
      print [Text "🔧 Executing: "; Text tool_name; Text " with args "; Mapping tool_args] ;;
      answer ← send (CallTool tool_name tool_args);
      print [Text "✅ Result: "; Text answer]
  end ;;
  sleep (3 # 10).  (* Small delay between steps *)

Definition execute_robot_sequence (steps : sequence) : M unit :=
  try_except
    (async_with_session
       (send Initialize ;;
        for_each steps execute_step))
    (fun e =>
       print [Text "❌ Error executing sequence: "; Text e] ;;
       raise (Exception e)).

(** ** execute_command_sequence *)

Definition execute_command_sequence (command_name : string)
    (commands : gmap string sequence) : M unit :=
  match commands !! command_name with
  | None =>
      print [Text "❌ Error: Command '"; Text command_name; Text "' not found in JSON"]
      (* return *)
  | Some steps =>
      print [Text Py.nl; Text "🎯 --- Executing: "; Text (Py.upper command_name); Text " ---"] ;;
      execute_robot_sequence steps
  end.

(** ** move_chess_piece *)

Definition read_command_json : M file := fun w => (Ok (command_json w), w).

Definition move_chess_piece (from_position to_position : string) : M unit :=
  (* Load command sequences from JSON *)
  loaded ← read_command_json;
  match loaded with
  | Missing => print [Text "❌ Error: command.json file not found"]
  | Malformed => print [Text "❌ Error: Invalid JSON format in command.json"]
  | Json commands =>
    (* Validate positions exist in commands *)
    if negb (bool_decide (is_Some (commands !! from_position))) then
      print [Text "❌ Error: Position '"; Text from_position; Text "' not found in commands.json"]
    else if negb (bool_decide (is_Some (commands !! to_position))) then
      print [Text "❌ Error: Position '"; Text to_position; Text "' not found in commands.json"]
    else
      (* Get position data *)
      from_data ← getitem from_position (POSITION_DATA !! from_position);
      to_data ← getitem to_position (POSITION_DATA !! to_position);
      print [Text "🚀 Starting chess move: "; Text (Py.upper from_position); Text " → ";
             Text (Py.upper to_position)] ;;
      print [Text (Py.repeat "=" 70)] ;;
      print [Text "📍 From position: "; Text (Py.upper from_position);
             Text " (Forward: "; Text (Py.str (forward from_data)); Text "mm, Rotation: ";
             Text (Py.str (rotation from_data)); Text "°)"] ;;
      print [Text "📍 To position: "; Text (Py.upper to_position);
             Text " (Forward: "; Text (Py.str (forward to_data)); Text "mm, Rotation: ";
             Text (Py.str (rotation to_data)); Text "°)"] ;;
      print [Text (Py.repeat "=" 70)] ;;
      try_except
        ((* STEP 1: Attack position *)
         execute_command_sequence "attack" commands ;;
         (* STEP 2: Open gripper (prepare for picking) *)
         execute_command_sequence "open" commands ;;
         (* STEP 3: Move to source position *)
         execute_command_sequence from_position commands ;;
         (* STEP 4: Close gripper (pick up piece) *)
         execute_command_sequence "close" commands ;;
         (* STEP 5: Home (return to home with piece) *)
         print [Text Py.nl; Text "🏠 --- Executing: HOME (from "; Text (Py.upper from_position);
                Text ") ---"] ;;
         execute_robot_sequence
           (create_home_sequence (forward from_data) (rotation from_data)) ;;
         (* STEP 6: Attack position (again) *)
         execute_command_sequence "attack" commands ;;
         (* STEP 7: Move to destination position *)
         execute_command_sequence to_position commands ;;
         (* STEP 8: Open gripper (drop piece) *)
         execute_command_sequence "open" commands ;;
         (* STEP 9: Home (return to home position) *)
         print [Text Py.nl; Text "🏠 --- Executing: HOME (from "; Text (Py.upper to_position);
                Text ") ---"] ;;
         execute_robot_sequence
           (create_home_sequence (forward to_data) (rotation to_data)) ;;
         (* STEP 10: Close gripper (final position) *)
         execute_command_sequence "close" commands ;;
         (* STEP 11: Move for camera *)
         execute_command_sequence "move_for_cam" commands ;;
         print [Text Py.nl; Text "🎉 Successfully completed chess move: ";
                Text (Py.upper from_position); Text " → "; Text (Py.upper to_position)] ;;
         print [Text (Py.repeat "=" 70)])
        (fun e =>
           print [Text "❌ Error during chess move: "; Text e] ;;
           raise (Exception e))
  end.

(** ** print_usage and print_position_info *)

Definition print_usage : M unit :=
  print [Text "🏛️  Chess Robot Controller"] ;;
  print [Text (Py.repeat "=" 50)] ;;
  print [Text "📋 Usage: python app.py <from_position> <to_position>"] ;;
  print [Text "📋 Example: python app.py d7 d5"] ;;
  print [Text Py.nl; Text "📍 Available positions (all 64 squares):"] ;;
  (* Print positions in a chess board layout *)
  let rows := ["8"; "7"; "6"; "5"; "4"; "3"; "2"; "1"] in
  let cols := ["a"; "b"; "c"; "d"; "e"; "f"; "g"; "h"] in
  for_each rows (fun row =>
    let row_positions := map (fun col => col +:+ row) cols in
    print [Text "   "; Text row; Text ": "; Text (Py.join " " row_positions)]) ;;
  print [Text Py.nl; Text "🔄 Movement sequence executed:"] ;;
  print [Text "   1. attack → 2. open → 3. from_position → 4. close → 5. home"] ;;
  print [Text "   6. attack → 7. to_position → 8. open → 9. home → 10. close → 11. move_for_cam"] ;;
  print [Text Py.nl; Text "🎯 Robot configuration:"] ;;
  print [Text "   • Board: 260mm x 260mm (33mm per square)"] ;;
  print [Text "   • Robot: SO-101 with 6 DOF"] ;;
  print [Text "   • Position: 2cm from D column edge"] ;;
  print [Text "   • Rotation: Automatic based on target column"].

Definition print_position_info (position : string) : M unit :=
  match POSITION_DATA !! position with
  | Some data =>
      print [Text Py.nl; Text "📍 Position "; Text (Py.upper position); Text " details:"] ;;
      print [Text "   Forward distance: "; Text (Py.str (forward data)); Text "mm"] ;;
      print [Text "   Rotation angle: "; Text (Py.str (rotation data)); Text "°"] ;;
      let column := Py.item position 0 in
      if rotation data =? 0 then
        print [Text "   Column "; Text (Py.upper column); Text ": Direct alignment (no rotation)"]
      else if rotation data <? 0 then
        print [Text "   Column "; Text (Py.upper column); Text ": Left rotation"]
      else
        print [Text "   Column "; Text (Py.upper column); Text ": Right rotation"]
  | None => ret tt
  end.

(** ** main

    [argv] is [sys.argv]: the program name, then the arguments. *)

Definition main (argv : list string) : M unit :=
  (* Check command line arguments *)
  match argv with
  | [_; arg1; arg2] =>
      let from_position := Py.lower arg1 in
      let to_position := Py.lower arg2 in
      (* Validate positions *)
      let '(from_valid, from_msg) := validate_position from_position in
      if negb from_valid then
        print [Text "❌ Error: From position - "; Text from_msg; Text Py.nl] ;;
        print_usage
      else
      let '(to_valid, to_msg) := validate_position to_position in
      if negb to_valid then
        print [Text "❌ Error: To position - "; Text to_msg; Text Py.nl] ;;
        print_usage
      else
      (* Check if positions are the same *)
      if bool_decide (from_position = to_position) then
        print [Text "❌ Error: From and to positions cannot be the same"; Text Py.nl]
      else
        print [Text "🤖 Chess Robot Controller - Move Execution"] ;;
        print [Text (Py.repeat "=" 50)] ;;
        print_position_info from_position ;;
        print_position_info to_position ;;
        print [Text Py.nl; Text "🎯 Executing move sequence..."] ;;
        print [Text (Py.repeat "=" 50)] ;;
        (* Execute the chess move *)
        move_chess_piece from_position to_position
  | _ (* len(sys.argv) != 3 *) =>
      print [Text "❌ Error: Invalid number of arguments"; Text Py.nl] ;;
      print_usage
  end.

(** ** The [__main__] block

    [run argv w] is the exit status of the process and the world it
    leaves: [sys.exit(1)] gives status 1, falling off the end status 0. *)

Definition run (argv : list string) (w : world) : Z * world :=
  match main argv w with
  | (Ok _, w') => (0, w')
  | (Raise KeyboardInterrupt, w') =>
      (0, log_line [Text Py.nl; Text "⏹️  Move interrupted by user"] w')
  | (Raise (Exception e), w') =>
      (1, log_line [Text Py.nl; Text "💥 Unexpected error: "; Text e] w')
  end.

(** ** Sample worlds *)

Definition demo_commands : gmap string sequence := Py.dict [
  ("attack", [tool_step "move_robot" [("move_gripper_up_mm", "20")]]);
  ("open", [tool_step "control_gripper" [("gripper_openness_pct", "100")]; wait_step 1]);
  ("close", [tool_step "control_gripper" [("gripper_openness_pct", "0")]]);
  ("move_for_cam", [tool_step "move_robot" [("rotate_robot_right_angle", "90")]]);
  ("d7", [tool_step "move_robot" [("move_gripper_forward_mm", "70")]]);
  ("d5", [tool_step "move_robot" [("move_gripper_forward_mm", "150")]])
].

Definition start (f : file) (srv : nat -> outcome) : world :=
  {| command_json := f; server := srv; requests := 0; trace := []; console := [] |}.

Definition always_ok : nat -> outcome := fun _ => Returns "ok".

Definition fails_at (n : nat) (message : string) : nat -> outcome :=
  fun k => if (k =? n)%nat then Fails message else Returns "ok".

(** * Vocabulary of the properties

    The definitions below are not part of the program: they name what the
    properties talk about. *)

(** ** Coordinates and table values *)

Definition columns : list string := ["a"; "b"; "c"; "d"; "e"; "f"; "g"; "h"].
Definition rows : list string := ["1"; "2"; "3"; "4"; "5"; "6"; "7"; "8"].

(** The 64 board coordinates: a column letter followed by a row digit. *)
Definition coordinates : list string :=
  c ← columns; r ← rows; [c +:+ r].

Definition rotations : list Z := [-90; -67; -45; -22; 0; 22; 45; 67; 90].

Definition move_robot (parameter value : string) : step :=
  tool_step "move_robot" [(parameter, value)].

Definition home (e : PositionEntry) : sequence :=
  create_home_sequence (forward e) (rotation e).

(** ** The validator's rules as the specification words them

    An ordered list of rules, each with the test that must hold and the
    message given when it does not; the first rule that fails decides. *)

Record rule := {
  holds : string → bool;
  complaint : string → string
}.

Fixpoint first_failure (rules : list rule) (s : string) : bool * string :=
  match rules with
  | [] => (true, "Valid")
  | r :: rest => if holds r s then first_failure rest s else (false, complaint r s)
  end.

Definition between (lo hi c : ascii) : bool :=
  (nat_of_ascii lo <=? nat_of_ascii c)%nat && (nat_of_ascii c <=? nat_of_ascii hi)%nat.

Definition char_at (i : nat) (s : string) : string :=
  match String.get i s with
  | Some c => String c EmptyString
  | None => EmptyString
  end.

Definition char_between (lo hi : ascii) (i : nat) (s : string) : bool :=
  match String.get i s with
  | Some c => between lo hi c
  | None => false
  end.

(** (a) length exactly 2 *)
Definition spec_rule_a : rule :=
  {| holds s := (String.length s =? 2)%nat;
     complaint _ := "Invalid position format. Use format like 'd7', 'e5', etc." |}.

(** (b) first character in a-h *)
Definition spec_rule_b : rule :=
  {| holds s := char_between "a" "h" 0 s;
     complaint s := "Invalid column '" +:+ char_at 0 s +:+ "'. Must be a-h." |}.

(** (c) second character in 1-8 *)
Definition spec_rule_c : rule :=
  {| holds s := char_between "1" "8" 1 s;
     complaint s := "Invalid row '" +:+ char_at 1 s +:+ "'. Must be 1-8." |}.

(** (d) membership in the Position Table *)
Definition spec_rule_d : rule :=
  {| holds s := bool_decide (is_Some (POSITION_DATA !! s));
     complaint s := "Position '" +:+ s +:+ "' not available in position data." |}.

Definition spec_validate : string → bool * string :=
  first_failure [spec_rule_a; spec_rule_b; spec_rule_c; spec_rule_d].

(** ** What a run does to the robot

    The [actions] of a trace are its events without the server's answers:
    the requests sent, the pauses taken and the sessions left. A sequence
    that is executed without an error contributes its [session]. *)

Inductive action :=
| Do (r : request)
| Pause (seconds : Q)
| Leave.

Definition action_of (e : event) : action :=
  match e with
  | Request r _ => Do r
  | Sleep seconds => Pause seconds
  | Close => Leave
  end.

Definition actions (t : list event) : list action := map action_of t.

(** A step the executor can run: a delay, or a tool with its arguments. *)
Definition well_formed (s : step) : bool :=
  match wait s, tool s, args s with
  | Some _, _, _ => true
  | None, Some _, Some _ => true
  | _, _, _ => false
  end.

Definition step_actions (s : step) : list action :=
  match wait s, tool s, args s with
  | Some seconds, _, _ => [Pause seconds; Pause (3 # 10)]
  | None, Some name, Some a => [Do (CallTool name a); Pause (3 # 10)]
  | _, _, _ => []
  end.

Definition session (steps : sequence) : list action :=
  Do Spawn :: Do Initialize :: flat_map step_actions steps ++ [Leave].

(** The number of sequence executions begun in a list of actions. *)
Definition begins (a : action) : bool :=
  match a with
  | Do Spawn => true
  | _ => false
  end.

Definition executions (acts : list action) : nat :=
  length (List.filter begins acts).

(** What dispatching a label contributes: its session, or nothing when the
    store has no such label. *)
Definition stage (commands : gmap string sequence) (label : string) : list action :=
  match commands !! label with
  | Some steps => session steps
  | None => []
  end.

Definition stored_steps_well_formed (commands : gmap string sequence) : Prop :=
  map_Forall (fun _ steps => Forall (fun s => well_formed s = true) steps) commands.

(** The actions of the eleven stages, in order; a stage whose label is
    not in the store contributes nothing. *)
Definition plan (commands : gmap string sequence) (from_position to_position : string)
    (from_data to_data : PositionEntry) : list action :=
  stage commands "attack" ++
  stage commands "open" ++
  stage commands from_position ++
  stage commands "close" ++
  session (home from_data) ++
  stage commands "attack" ++
  stage commands to_position ++
  stage commands "open" ++
  session (home to_data) ++
  stage commands "close" ++
  stage commands "move_for_cam".

(** The server answers every request. *)
Definition answering (w : world) : Prop :=
  ∀ n, ∃ answer, server w n = Returns answer.

(** ** Runs that go well, runs that only print *)

(** [performs m acts post]: from a world whose server answers, [m]
    returns normally a value satisfying [post], adds [acts] to the
    actions of the trace and leaves server and file as they were. *)
Definition performs {A} (m : M A) (acts : list action) (post : A → Prop) : Prop :=
  ∀ w, answering w →
    ∃ a w', m w = (Ok a, w') ∧ post a ∧
            server w' = server w ∧ command_json w' = command_json w ∧
            actions (trace w') = actions (trace w) ++ acts.

Definition any {A} : A → Prop := fun _ => True.

(** [quiet m]: [m] returns normally and changes nothing but the console. *)
Definition quiet (m : M unit) : Prop :=
  ∀ w, ∃ w', m w = (Ok tt, w') ∧ trace w' = trace w ∧ requests w' = requests w ∧
             server w' = server w ∧ command_json w' = command_json w.

(** ** Runs in which a request fails *)

(** A request the server answered with a failure. *)
Definition failure (e : event) : bool :=
  match e with
  | Request _ (Fails _) => true
  | _ => false
  end.

(** No request in [t] failed. *)
Definition clean (t : list event) : Prop := Forall (fun e => failure e = false) t.

(** Nothing happens in [t] but sessions being left: no request is sent
    and no pause is taken. *)
Definition settled (t : list event) : Prop := Forall (fun e => e = Close) t.

(** How a result may relate to the events [delta] added by a run: after a
    failed request nothing follows but the closing of sessions, and the
    run ends with an [Exception] carrying the failure's message. *)
Definition verdict {A} (r : result A) (delta : list event) : Prop :=
  match r with
  | Raise (Exception message) =>
      clean delta ∨
      ∃ pre r post, delta = pre ++ Request r (Fails message) :: post ∧
                    clean pre ∧ settled post
  | _ => clean delta
  end.

Definition disciplined {A} (m : M A) : Prop :=
  ∀ w, ∃ delta, trace (m w).2 = trace w ++ delta ∧ verdict (m w).1 delta.

(** A handler that reports the exception and raises it again. *)
Definition reraises {A} (handler : string → M A) : Prop :=
  ∀ message w, (handler message w).1 = Raise (Exception message) ∧
               trace (handler message w).2 = trace w.

(** ** A store without "close" *)

(** The store of the sample world without its "close" entry. *)
Definition commands_without_close : gmap string sequence :=
  delete "close" demo_commands.

(** * Vocabulary of the further properties *)

(** ** Runs that only add lines to the console *)

(** [says lines w]: the world [w] after [lines] have been printed. *)
Definition says (lines : list line) (w : world) : world :=
  {| command_json := command_json w; server := server w; requests := requests w;
     trace := trace w; console := console w ++ lines |}.


(** ** The direction of a column *)

(** What the position details say about a column: columns a, b and c lie
    to the left of the robot, column d in front of it, the others to the
    right. *)
Definition direction (column : string) : string :=
  if bool_decide (column ∈ ["a"; "b"; "c"]) then ": Left rotation"
  else if bool_decide (column = "d") then ": Direct alignment (no rotation)"
  else ": Right rotation".

(** ** Malformed steps *)


(** ** The protocol with the tool server

    What the program may do next to the server and the clock, as a
    machine over the events of the trace: it is [Idle] between sessions;
    a session is [Spawned], then [Ready] once initialised; a tool call that
    returned is [Called] and must be followed by the pause of 0.3 s; after
    a request that did not return the session has [Failed] and can only be
    closed. *)

Inductive phase := Idle | Spawned | Ready | Called | Failed.

Definition advance (p : phase) (e : event) : option phase :=
  match p, e with
  | Idle, Request Spawn (Returns _) => Some Spawned
  | Idle, Request Spawn _ => Some Idle
  | Spawned, Request Initialize (Returns _) => Some Ready
  | Spawned, Request Initialize _ => Some Failed
  | Ready, Request (CallTool _ _) (Returns _) => Some Called
  | Ready, Request (CallTool _ _) _ => Some Failed
  | Ready, Sleep _ => Some Ready
  | Ready, Close => Some Idle
  | Called, Sleep seconds => if Qeq_bool seconds (3 # 10) then Some Ready else None
  | Failed, Close => Some Idle
  | _, _ => None
  end.

Fixpoint protocol (p : phase) (t : list event) : option phase :=
  match t with
  | [] => Some p
  | e :: rest =>
      match advance p e with
      | Some p' => protocol p' rest
      | None => None
      end
  end.

(** [between_sessions m]: the events [m] adds take the machine from [Idle]
    back to [Idle]. *)
Definition between_sessions {A} (m : M A) : Prop :=
  ∀ w, ∃ delta, trace (m w).2 = trace w ++ delta ∧ protocol Idle delta = Some Idle.

(** [in_session p m]: the events [m] adds take the machine from [p] to
    [Ready] when [m] returns, and to [Ready] or [Failed] when it raises. *)
Definition in_session {A} (p : phase) (m : M A) : Prop :=
  ∀ w, ∃ delta p',
    trace (m w).2 = trace w ++ delta ∧ protocol p delta = Some p' ∧
    match (m w).1 with
    | Ok _ => p' = Ready
    | Raise _ => p' = Ready ∨ p' = Failed
    end.

(** ** Runs that are interrupted *)

(** A request during which the user interrupted the program. *)
Definition interrupted (e : event) : bool :=
  match e with
  | Request _ Interrupted => true
  | _ => false
  end.

(** No request in [t] was interrupted. *)
Definition calm (t : list event) : Prop := Forall (fun e => interrupted e = false) t.

(** How a result may relate to the events [delta] added by a run: a
    [KeyboardInterrupt] comes from an interrupted request, after which
    nothing follows but the closing of sessions; otherwise no request was
    interrupted. *)
Definition heard {A} (r : result A) (delta : list event) : Prop :=
  match r with
  | Raise KeyboardInterrupt =>
      ∃ pre r post, delta = pre ++ Request r Interrupted :: post ∧
                    calm pre ∧ settled post
  | _ => calm delta
  end.

Definition heedful {A} (m : M A) : Prop :=
  ∀ w, ∃ delta, trace (m w).2 = trace w ++ delta ∧ heard (m w).1 delta.

(** A server that answers every request but the [n]-th, during which the
    user interrupts. *)
Definition interrupted_at (n : nat) : nat -> outcome :=
  fun k => if (k =? n)%nat then Interrupted else Returns "ok".

(** * Properties *)

(** ** The position table *)

Section PositionTable.

Lemma coordinates_distinct : NoDup coordinates ∧ length coordinates = 64%nat.
Proof.
  split; [|reflexivity].
  apply (bool_decide_unpack _). vm_compute. exact I.
Qed.

Lemma coordinates_present :
  Forall (fun k => is_Some (POSITION_DATA !! k)) coordinates.
Proof.
  vm_compute coordinates.
  repeat (apply Forall_cons; split; [vm_compute; eauto|]).
  constructor.
Qed.

Lemma lookup_coordinate (k : string) :
  k ∈ coordinates → is_Some (POSITION_DATA !! k).
Proof.
  intros Hk. exact (proj1 (Forall_forall _ _) coordinates_present k Hk).
Qed.

Lemma entries_in_range :
  map_Forall (fun _ e => 0 < forward e ∧ rotation e ∈ rotations) POSITION_DATA.
Proof.
  apply map_Forall_to_list. vm_compute map_to_list.
  repeat (apply Forall_cons; split;
          [split; [reflexivity | unfold rotations; cbn; set_solver]|]).
  constructor.
Qed.

(** C5. The literal lists no coordinate twice and the table has 64
    entries; each of the 64 coordinates (column a-h, row 1-8, all
    distinct) has an entry, so the entries are exactly those; and every
    entry has [forward > 0] and a rotation among -90, -67, -45, -22, 0,
    22, 45, 67, 90, hence between -90 and 90. *)
Theorem position_table_complete :
  NoDup (position_entries.*1) ∧
  size POSITION_DATA = 64%nat ∧
  NoDup coordinates ∧ length coordinates = 64%nat ∧
  Forall (fun k => is_Some (POSITION_DATA !! k)) coordinates ∧
  map_Forall (fun _ e => 0 < forward e ∧ rotation e ∈ rotations ∧
                         -90 <= rotation e <= 90) POSITION_DATA.
Proof.
  split; [apply (bool_decide_unpack _); vm_compute; exact I|].
  split; [vm_compute; reflexivity|].
  split; [apply coordinates_distinct|].
  split; [apply coordinates_distinct|].
  split; [apply coordinates_present|].
  intros k e Hk. destruct (entries_in_range k e Hk) as [Hf Hr].
  split; [exact Hf|]. split; [exact Hr|].
  unfold rotations in Hr.
  repeat (apply elem_of_cons in Hr as [-> | Hr]; [lia|]).
  inversion Hr.
Qed.

End PositionTable.

(** ** Home-sequence synthesis *)

Section HomeSequence.

(** C3. [create_home_sequence] returns the four fixed instructions
    (raise the gripper 50 mm, tilt by -80 degrees, lower by 75 mm, retreat
    by the forward distance) and, exactly when the rotation is not zero, a
    fifth one rotating by the negated rotation. For (70, -90) that is five
    instructions, the fifth a rotation of +90; for (70, 0) it is four,
    none of them a rotation. *)
Theorem create_home_sequence_shape :
  (∀ forward_distance rotation_angle : Z,
     create_home_sequence forward_distance rotation_angle =
     [move_robot "move_gripper_up_mm" "50";
      move_robot "tilt_gripper_down_angle" "-80";
      move_robot "move_gripper_up_mm" "-75";
      move_robot "move_gripper_forward_mm" ("-" +:+ Py.str forward_distance)]
     ++ (if bool_decide (rotation_angle = 0) then []
         else [move_robot "rotate_robot_right_angle" (Py.str (- rotation_angle))])) ∧
  (length (create_home_sequence 70 (-90)) = 5%nat ∧
   create_home_sequence 70 (-90) !! 4%nat =
     Some (move_robot "rotate_robot_right_angle" "90")) ∧
  create_home_sequence 70 0 =
    [move_robot "move_gripper_up_mm" "50";
     move_robot "tilt_gripper_down_angle" "-80";
     move_robot "move_gripper_up_mm" "-75";
     move_robot "move_gripper_forward_mm" "-70"].
Proof.
  split; [|split; [split|]; reflexivity].
  intros f r. unfold create_home_sequence.
  case_bool_decide as Hr.
  - subst r. reflexivity.
  - destruct (Z.eqb_spec r 0) as [|_]; [contradiction|]. cbn [negb].
    destruct (Z.eqb_spec (- r) 0) as [Hz|_]; [lia|]. reflexivity.
Qed.

End HomeSequence.

(** ** The validator *)

Section Validator.

(** *** The source's tests on one character *)

Lemma column_test (c : ascii) :
  Py.contains (String c EmptyString) "abcdefgh" = between "a" "h" c.
Proof. destruct c as [[] [] [] [] [] [] [] []]; reflexivity. Qed.

Lemma row_test (c : ascii) :
  Py.contains (String c EmptyString) "12345678" = between "1" "8" c.
Proof. destruct c as [[] [] [] [] [] [] [] []]; reflexivity. Qed.

Lemma column_letters (c : ascii) :
  between "a" "h" c = true → String c EmptyString ∈ columns.
Proof.
  destruct c as [[] [] [] [] [] [] [] []]; intros H; try discriminate H;
    unfold columns; set_solver.
Qed.

Lemma row_digits (c : ascii) :
  between "1" "8" c = true → String c EmptyString ∈ rows.
Proof.
  destruct c as [[] [] [] [] [] [] [] []]; intros H; try discriminate H;
    unfold rows; set_solver.
Qed.

Lemma coordinate_of_parts (c r : string) :
  c ∈ columns → r ∈ rows → c +:+ r ∈ coordinates.
Proof.
  intros Hc Hr. unfold coordinates.
  apply list_elem_of_bind. exists c. split; [|exact Hc].
  apply list_elem_of_bind. exists r. split; [|exact Hr].
  apply list_elem_of_singleton. reflexivity.
Qed.

(** A string of two characters passing rules (b) and (c) is a key. *)
Lemma well_formed_is_key (c1 c2 : ascii) :
  between "a" "h" c1 = true → between "1" "8" c2 = true →
  is_Some (POSITION_DATA !! String c1 (String c2 EmptyString)).
Proof.
  intros H1 H2. apply lookup_coordinate.
  apply (coordinate_of_parts (String c1 EmptyString) (String c2 EmptyString)).
  - apply column_letters, H1.
  - apply row_digits, H2.
Qed.

(** [validate_position] on a string of exactly two characters. *)
Lemma validate_position_two (c1 c2 : ascii) :
  let s := String c1 (String c2 EmptyString) in
  validate_position s =
    if negb (between "a" "h" c1) then
      (false, "Invalid column '" +:+ String c1 EmptyString +:+ "'. Must be a-h.")
    else if negb (between "1" "8" c2) then
      (false, "Invalid row '" +:+ String c2 EmptyString +:+ "'. Must be 1-8.")
    else if negb (bool_decide (is_Some (POSITION_DATA !! s))) then
      (false, "Position '" +:+ s +:+ "' not available in position data.")
    else (true, "Valid").
Proof.
  intros s. rewrite <- column_test, <- row_test. reflexivity.
Qed.

Lemma validate_position_refines (s : string) :
  validate_position s = spec_validate s.
Proof.
  destruct s as [|c1 [|c2 [|c3 s]]]; try reflexivity.
  rewrite validate_position_two.
  unfold spec_validate. cbn -[lookup between String.append].
  destruct (between "a" "h" c1); [|reflexivity].
  destruct (between "1" "8" c2); [|reflexivity].
  destruct (bool_decide _); reflexivity.
Qed.

(** C4. The validator applies the rules in order and the first failure
    decides: (a) length exactly 2, (b) first character in a-h, (c) second
    character in 1-8, (d) membership in the Position Table. So "d7" is
    valid, "i9" and "D7" are rejected by rule (b) and "d" by rule (a),
    each with the message of that rule. *)
Theorem validate_position_ordered :
  (∀ s, validate_position s = spec_validate s) ∧
  validate_position "d7" = (true, "Valid") ∧
  validate_position "i9" = (false, "Invalid column 'i'. Must be a-h.") ∧
  validate_position "d" =
    (false, "Invalid position format. Use format like 'd7', 'e5', etc.") ∧
  validate_position "D7" = (false, "Invalid column 'D'. Must be a-h.").
Proof.
  split; [exact validate_position_refines|].
  repeat split; vm_compute; reflexivity.
Qed.

(** C9. Rule (d) never fails: a string of length 2 whose first character
    is in a-h and whose second is in 1-8 is a key of the Position Table,
    and no string at all is rejected with the "not available in position
    data" message. *)
Theorem table_rule_unreachable (s : string) :
  (Py.len s = 2%nat →
   Py.contains (Py.item s 0) "abcdefgh" = true →
   Py.contains (Py.item s 1) "12345678" = true →
   is_Some (POSITION_DATA !! s)) ∧
  validate_position s ≠
    (false, "Position '" +:+ s +:+ "' not available in position data.").
Proof.
  destruct s as [|c1 [|c2 [|c3 s]]];
    try (split; [intros H; discriminate H | intros H; discriminate H]).
  split.
  - intros _ H1 H2.
    apply well_formed_is_key; [rewrite <- column_test | rewrite <- row_test];
      assumption.
  - rewrite validate_position_two.
    destruct (between "a" "h" c1) eqn:H1; cbn [negb]; [|intros H; discriminate H].
    destruct (between "1" "8" c2) eqn:H2; cbn [negb]; [|intros H; discriminate H].
    rewrite bool_decide_eq_true_2 by (apply well_formed_is_key; assumption).
    intros H; discriminate H.
Qed.

Lemma table_rule_unreachable_witness :
  is_Some (POSITION_DATA !! "g3") ∧
  validate_position "g3" ≠
    (false, "Position 'g3' not available in position data.").
Proof.
  split.
  - apply (proj1 (table_rule_unreachable "g3")); reflexivity.
  - apply (proj2 (table_rule_unreachable "g3")).
Defined.

End Validator.

(** ** Runs in which every request is answered *)

Section Performs.

Lemma performs_eq {A} (m : M A) acts acts' post :
  performs m acts post → acts = acts' → performs m acts' post.
Proof. intros H <-. exact H. Qed.

Lemma performs_ret {A} (a : A) : performs (ret a) [] (eq a).
Proof.
  intros w _. exists a, w. rewrite app_nil_r. repeat split; reflexivity.
Qed.

Lemma performs_weaken {A} (m : M A) acts (post post' : A → Prop) :
  performs m acts post → (∀ a, post a → post' a) → performs m acts post'.
Proof.
  intros H Himp w Hw. destruct (H w Hw) as (a & w' & Hm & Hp & Hrest).
  exists a, w'. split; [exact Hm|]. split; [apply Himp, Hp|exact Hrest].
Qed.

Lemma performs_bind {A B} (m : M A) (k : A → M B) acts1 acts2 post1 post2 :
  performs m acts1 post1 →
  (∀ a, post1 a → performs (k a) acts2 post2) →
  performs (m ≫= k) (acts1 ++ acts2) post2.
Proof.
  intros Hm Hk w Hw.
  destruct (Hm w Hw) as (a & w1 & Em & Hp & Hs1 & Hf1 & Ht1).
  assert (Hw1 : answering w1) by (intros n; rewrite Hs1; apply Hw).
  destruct (Hk a Hp w1 Hw1) as (b & w2 & Ek & Hq & Hs2 & Hf2 & Ht2).
  exists b, w2. unfold mbind, M_bind, bind. rewrite Em.
  split; [exact Ek|]. split; [exact Hq|].
  split; [congruence|]. split; [congruence|].
  rewrite Ht2, Ht1, app_assoc. reflexivity.
Qed.

Lemma performs_print (l : line) : performs (print l) [] any.
Proof.
  intros w _. exists tt, (log_line l w). rewrite app_nil_r.
  repeat split; reflexivity.
Qed.

Lemma performs_sleep (seconds : Q) : performs (sleep seconds) [Pause seconds] any.
Proof.
  intros w _. exists tt, (log_event (Sleep seconds) w).
  repeat split; try reflexivity.
  unfold actions. cbn. rewrite map_app. reflexivity.
Qed.

Lemma performs_send (r : request) : performs (send r) [Do r] any.
Proof.
  intros w Hw. destruct (Hw (requests w)) as [answer Ha].
  exists answer, (log_event (Request r (Returns answer)) (next_request w)).
  unfold send. rewrite Ha.
  repeat split; try reflexivity.
  unfold actions. cbn. rewrite map_app. reflexivity.
Qed.

Lemma performs_try_except {A} (body : M A) handler acts post :
  performs body acts post → performs (try_except body handler) acts post.
Proof.
  intros H w Hw. destruct (H w Hw) as (a & w' & Em & Hrest).
  exists a, w'. unfold try_except. rewrite Em. split; [reflexivity|exact Hrest].
Qed.

Lemma performs_finally_close {A} (body : M A) acts post :
  performs body acts post → performs (finally_close body) (acts ++ [Leave]) post.
Proof.
  intros H w Hw. destruct (H w Hw) as (a & w' & Em & Hp & Hs & Hf & Ht).
  exists a, (log_event Close w'). unfold finally_close. rewrite Em.
  repeat split; try assumption.
  unfold actions in *. cbn. rewrite map_app, Ht, app_assoc. reflexivity.
Qed.

Lemma performs_getitem {V} key (v : V) : performs (getitem key (Some v)) [] (eq v).
Proof. apply performs_ret. Qed.

Lemma performs_execute_step (s : step) :
  well_formed s = true → performs (execute_step s) (step_actions s) any.
Proof.
  intros Hwf. unfold execute_step, step_actions, well_formed in *.
  destruct (wait s) as [seconds|].
  - eapply performs_eq.
    + eapply performs_bind; [|intros ? _; apply performs_sleep].
      eapply performs_bind; [apply performs_print|intros ? _; apply performs_sleep].
    + reflexivity.
  - destruct (tool s) as [name|]; [|discriminate Hwf].
    destruct (args s) as [a|]; [|discriminate Hwf].
    eapply performs_eq.
    + eapply performs_bind; [|intros ? _; apply performs_sleep].
      eapply performs_bind; [apply performs_getitem|intros ? <-].
      eapply performs_bind; [apply performs_getitem|intros ? <-].
      eapply performs_bind; [apply performs_print|intros ? _].
      eapply performs_bind; [apply performs_send|intros ? _].
      apply performs_print.
    + reflexivity.
Qed.

Lemma performs_for_each (steps : sequence) :
  Forall (fun s => well_formed s = true) steps →
  performs (for_each steps execute_step) (flat_map step_actions steps) any.
Proof.
  induction 1 as [|s steps Hs _ IH]; cbn [for_each flat_map].
  - eapply performs_weaken; [apply performs_ret|]. intros; exact I.
  - eapply performs_bind; [apply performs_execute_step, Hs|intros ? _; exact IH].
Qed.

Lemma performs_execute_robot_sequence (steps : sequence) :
  Forall (fun s => well_formed s = true) steps →
  performs (execute_robot_sequence steps) (session steps) any.
Proof.
  intros Hwf. unfold execute_robot_sequence, async_with_session.
  apply performs_try_except.
  eapply performs_eq.
  - eapply performs_bind; [apply performs_send|intros ? _].
    apply performs_finally_close.
    eapply performs_bind; [apply performs_send|intros ? _].
    apply performs_for_each, Hwf.
  - reflexivity.
Qed.

Lemma performs_execute_command_sequence label (commands : gmap string sequence) :
  map_Forall (fun _ steps => Forall (fun s => well_formed s = true) steps) commands →
  performs (execute_command_sequence label commands) (stage commands label) any.
Proof.
  intros Hwf. unfold execute_command_sequence, stage.
  destruct (commands !! label) as [steps|] eqn:Hl.
  - eapply performs_eq.
    + eapply performs_bind; [apply performs_print|intros ? _].
      apply performs_execute_robot_sequence. exact (Hwf label steps Hl).
    + reflexivity.
  - apply performs_print.
Qed.

Lemma create_home_sequence_well_formed (f r : Z) :
  Forall (fun s => well_formed s = true) (create_home_sequence f r).
Proof.
  unfold create_home_sequence.
  destruct (negb (_ =? 0)); repeat constructor.
Qed.

End Performs.

(** ** The move orchestrator *)

Section Orchestrator.

Lemma bind_read_command_json {A} (k : file → M A) (w : world) :
  (read_command_json ≫= k) w = k (command_json w) w.
Proof. reflexivity. Qed.

Ltac performs_all :=
  first
    [ apply performs_print
    | apply performs_getitem
    | apply performs_execute_command_sequence; assumption
    | apply performs_execute_robot_sequence, create_home_sequence_well_formed
    | apply performs_try_except; performs_all
    | eapply performs_bind;
      [ performs_all
      | let a := fresh "a" in
        let H := fresh "H" in
        intros a H; try (unfold any in H; subst a); performs_all ] ].

Lemma move_chess_piece_plan commands from_position to_position from_data to_data w :
  command_json w = Json commands →
  answering w →
  stored_steps_well_formed commands →
  is_Some (commands !! from_position) →
  is_Some (commands !! to_position) →
  POSITION_DATA !! from_position = Some from_data →
  POSITION_DATA !! to_position = Some to_data →
  ∃ w', move_chess_piece from_position to_position w = (Ok tt, w') ∧
        server w' = server w ∧ command_json w' = command_json w ∧
        actions (trace w') =
          actions (trace w) ++ plan commands from_position to_position from_data to_data.
Proof.
  intros Hfile Hw Hwf Hfrom Hto Hfd Htd.
  unfold move_chess_piece. rewrite bind_read_command_json, Hfile.
  rewrite !bool_decide_eq_true_2 by assumption. cbn [negb].
  rewrite Hfd, Htd.
  match goal with
  | |- ∃ w', ?m w = _ ∧ _ =>
      assert (Hm : performs m (plan commands from_position to_position from_data to_data) any)
  end.
  { eapply performs_eq; [performs_all|].
    cbn [app]. rewrite !app_nil_r. reflexivity. }
  destruct (Hm w Hw) as ([] & w' & Em & _ & Hs & Hf & Ht).
  exists w'. split; [exact Em|]. split; [exact Hs|]. split; [|exact Ht].
  rewrite Hf. exact Hfile.
Qed.

Lemma executions_app (a b : list action) :
  executions (a ++ b) = (executions a + executions b)%nat.
Proof. unfold executions. rewrite List.filter_app, length_app. reflexivity. Qed.

Lemma executions_session (steps : sequence) : executions (session steps) = 1%nat.
Proof.
  unfold session, executions. cbn [List.filter begins length]. f_equal.
  rewrite List.filter_app. cbn [List.filter begins]. rewrite app_nil_r.
  induction steps as [|s steps IH]; [reflexivity|].
  cbn [flat_map]. rewrite List.filter_app, length_app, IH, Nat.add_0_r.
  unfold step_actions.
  destruct (wait s), (tool s), (args s); reflexivity.
Qed.

Lemma executions_sessions (l : list sequence) :
  executions (concat (map session l)) = length l.
Proof.
  induction l as [|s l IH]; [reflexivity|].
  cbn [map concat length]. rewrite executions_app, executions_session, IH.
  reflexivity.
Qed.

Lemma validated_is_key (position message : string) :
  validate_position position = (true, message) →
  is_Some (POSITION_DATA !! position).
Proof.
  unfold validate_position.
  repeat (match goal with
          | |- context [if negb ?b then _ else _] => destruct b eqn:?; cbn [negb]
          end; try (intros H; discriminate H)).
  intros _. eapply bool_decide_eq_true_1. eassumption.
Qed.

End Orchestrator.

(** ** The eleven stages *)

Section ElevenStages.

(** C1, counterexample. Coordinates that are validated, distinct and
    present in the store do not suffice for eleven executions: move d7 to
    d5 against a store that has both coordinates but no "close" entry and a
    server that answers every request. Nine sequences are executed. *)
Lemma eleven_needs_fixed_labels :
  let w := start (Json commands_without_close) always_ok in
  validate_position "d7" = (true, "Valid") ∧
  validate_position "d5" = (true, "Valid") ∧
  "d7" ≠ "d5" ∧
  is_Some (commands_without_close !! "d7") ∧
  is_Some (commands_without_close !! "d5") ∧
  fst (move_chess_piece "d7" "d5" w) = Ok tt ∧
  executions (actions (trace (snd (move_chess_piece "d7" "d5" w)))) = 9%nat ∧
  executions (actions (trace (snd (move_chess_piece "d7" "d5" w)))) ≠ 11%nat.
Proof.
  cbv zeta.
  split; [vm_compute; reflexivity|].
  split; [vm_compute; reflexivity|].
  split; [intros H; discriminate H|].
  split; [vm_compute; eauto|].
  split; [vm_compute; eauto|].
  split; [vm_compute; reflexivity|].
  split; [vm_compute; reflexivity|].
  vm_compute. intros H; discriminate H.
Qed.

(** C1 (amended). For validated, distinct coordinates present in the
    store, when the store also has "attack", "open", "close" and
    "move_for_cam", every stored step is well formed and the server
    answers every request, the orchestrator returns normally after
    exactly eleven sequence executions, in this order: "attack", "open",
    the source coordinate's sequence, "close", the home sequence of the
    source entry, "attack", the destination coordinate's sequence, "open",
    the home sequence of the destination entry, "close", "move_for_cam". *)
Theorem move_chess_piece_eleven
    (commands : gmap string sequence) (from_position to_position : string)
    (attack open close move_for_cam source destination : sequence) (w : world) :
  validate_position from_position = (true, "Valid") →
  validate_position to_position = (true, "Valid") →
  from_position ≠ to_position →
  command_json w = Json commands →
  commands !! from_position = Some source →
  commands !! to_position = Some destination →
  commands !! "attack" = Some attack →
  commands !! "open" = Some open →
  commands !! "close" = Some close →
  commands !! "move_for_cam" = Some move_for_cam →
  stored_steps_well_formed commands →
  answering w →
  ∃ from_data to_data w',
    POSITION_DATA !! from_position = Some from_data ∧
    POSITION_DATA !! to_position = Some to_data ∧
    move_chess_piece from_position to_position w = (Ok tt, w') ∧
    actions (trace w') =
      actions (trace w) ++
      concat (map session
        [attack; open; source; close; home from_data;
         attack; destination; open; home to_data;
         close; move_for_cam]) ∧
    executions (actions (trace w')) = (executions (actions (trace w)) + 11)%nat.
Proof.
  intros Hvf Hvt _ Hfile Hsrc Hdst Hattack Hopen Hclose Hcam Hwf Hw.
  destruct (validated_is_key _ _ Hvf) as [from_data Hfd].
  destruct (validated_is_key _ _ Hvt) as [to_data Htd].
  destruct (move_chess_piece_plan commands from_position to_position
              from_data to_data w Hfile Hw Hwf) as (w' & Em & _ & _ & Ht);
    [eauto | eauto | assumption | assumption |].
  exists from_data, to_data, w'.
  split; [exact Hfd|]. split; [exact Htd|]. split; [exact Em|].
  assert (Hplan : plan commands from_position to_position from_data to_data =
                  concat (map session
                    [attack; open; source; close; home from_data;
                     attack; destination; open; home to_data;
                     close; move_for_cam])).
  { unfold plan, stage.
    rewrite Hsrc, Hdst, Hattack, Hopen, Hclose, Hcam.
    cbn [map concat]. rewrite app_nil_r. reflexivity. }
  rewrite Hplan in Ht. split; [exact Ht|].
  rewrite Ht, executions_app, executions_sessions. reflexivity.
Qed.

Lemma move_chess_piece_eleven_witness :
  ∃ w', move_chess_piece "d7" "d5" (start (Json demo_commands) always_ok) = (Ok tt, w') ∧
        executions (actions (trace w')) = 11%nat.
Proof.
  destruct (move_chess_piece_eleven demo_commands "d7" "d5"
              [tool_step "move_robot" [("move_gripper_up_mm", "20")]]
              [tool_step "control_gripper" [("gripper_openness_pct", "100")]; wait_step 1]
              [tool_step "control_gripper" [("gripper_openness_pct", "0")]]
              [tool_step "move_robot" [("rotate_robot_right_angle", "90")]]
              [tool_step "move_robot" [("move_gripper_forward_mm", "70")]]
              [tool_step "move_robot" [("move_gripper_forward_mm", "150")]]
              (start (Json demo_commands) always_ok))
    as (from_data & to_data & w' & _ & _ & Em & _ & Hn).
  - vm_compute. reflexivity.
  - vm_compute. reflexivity.
  - intros H. discriminate H.
  - reflexivity.
  - vm_compute. reflexivity.
  - vm_compute. reflexivity.
  - vm_compute. reflexivity.
  - vm_compute. reflexivity.
  - vm_compute. reflexivity.
  - vm_compute. reflexivity.
  - apply map_Forall_to_list. vm_compute map_to_list. repeat constructor.
  - intros n. exists "ok". reflexivity.
  - exists w'. split; [exact Em | exact Hn].
Defined.

(** C2, counterexample. With "close" missing the orchestrator does not
    stop after state 2: against the store without "close", the move d7 to
    d5 returns normally,
    the source sequence of state 3 is dispatched (its tool call is the
    fifteenth action) and nine sequences are executed in all. *)
Lemma missing_close_does_not_abort :
  let w := start (Json commands_without_close) always_ok in
  commands_without_close !! "close" = None ∧
  fst (move_chess_piece "d7" "d5" w) = Ok tt ∧
  actions (trace (snd (move_chess_piece "d7" "d5" w))) !! 14%nat =
    Some (Do (CallTool "move_robot" [("move_gripper_forward_mm", "70")])) ∧
  executions (actions (trace (snd (move_chess_piece "d7" "d5" w)))) = 9%nat.
Proof.
  cbv zeta. repeat split; vm_compute; reflexivity.
Qed.

(** C2 (amended). A label that is absent from the store at dispatch time
    is reported as not found and only that state is skipped: nothing is
    dispatched for it and the executor returns normally, so the
    orchestrator goes on. With "close" missing (the other labels present,
    stored steps well formed, the server answering), states 4 and 10
    dispatch nothing and the nine other states are executed in order. *)
Theorem absent_label_is_skipped (commands : gmap string sequence) :
  (∀ label w,
     commands !! label = None →
     execute_command_sequence label commands w =
       (Ok tt, log_line [Text "❌ Error: Command '"; Text label;
                         Text "' not found in JSON"] w)) ∧
  (∀ (from_position to_position : string)
     (attack open move_for_cam source destination : sequence) (w : world),
     validate_position from_position = (true, "Valid") →
     validate_position to_position = (true, "Valid") →
     command_json w = Json commands →
     commands !! "close" = None →
     commands !! from_position = Some source →
     commands !! to_position = Some destination →
     commands !! "attack" = Some attack →
     commands !! "open" = Some open →
     commands !! "move_for_cam" = Some move_for_cam →
     stored_steps_well_formed commands →
     answering w →
     ∃ from_data to_data w',
       POSITION_DATA !! from_position = Some from_data ∧
       POSITION_DATA !! to_position = Some to_data ∧
       move_chess_piece from_position to_position w = (Ok tt, w') ∧
       actions (trace w') =
         actions (trace w) ++
         concat (map session
           [attack; open; source; home from_data;
            attack; destination; open; home to_data;
            move_for_cam])).
Proof.
  split.
  - intros label w Hnone. unfold execute_command_sequence. rewrite Hnone. reflexivity.
  - intros from_position to_position attack open move_for_cam source destination w
           Hvf Hvt Hfile Hclose Hsrc Hdst Hattack Hopen Hcam Hwf Hw.
    destruct (validated_is_key _ _ Hvf) as [from_data Hfd].
    destruct (validated_is_key _ _ Hvt) as [to_data Htd].
    destruct (move_chess_piece_plan commands from_position to_position
                from_data to_data w Hfile Hw Hwf) as (w' & Em & _ & _ & Ht);
      [eauto | eauto | assumption | assumption |].
    exists from_data, to_data, w'.
    split; [exact Hfd|]. split; [exact Htd|]. split; [exact Em|].
    rewrite Ht. f_equal. unfold plan, stage.
    rewrite Hsrc, Hdst, Hattack, Hopen, Hclose, Hcam.
    cbn [map concat app]. rewrite app_nil_r. reflexivity.
Qed.

Lemma absent_label_is_skipped_witness :
  fst (execute_command_sequence "close" commands_without_close
         (start (Json commands_without_close) always_ok)) = Ok tt ∧
  ∃ w', move_chess_piece "d7" "d5" (start (Json commands_without_close) always_ok)
          = (Ok tt, w') ∧
        executions (actions (trace w')) = 9%nat.
Proof.
  split.
  - rewrite (proj1 (absent_label_is_skipped commands_without_close) "close").
    + reflexivity.
    + vm_compute. reflexivity.
  - destruct (proj2 (absent_label_is_skipped commands_without_close) "d7" "d5"
              [tool_step "move_robot" [("move_gripper_up_mm", "20")]]
              [tool_step "control_gripper" [("gripper_openness_pct", "100")]; wait_step 1]
              [tool_step "move_robot" [("rotate_robot_right_angle", "90")]]
              [tool_step "move_robot" [("move_gripper_forward_mm", "70")]]
              [tool_step "move_robot" [("move_gripper_forward_mm", "150")]]
              (start (Json commands_without_close) always_ok))
      as (from_data & to_data & w' & _ & _ & Em & Ht).
    + vm_compute. reflexivity.
    + vm_compute. reflexivity.
    + reflexivity.
    + vm_compute. reflexivity.
    + vm_compute. reflexivity.
    + vm_compute. reflexivity.
    + vm_compute. reflexivity.
    + vm_compute. reflexivity.
    + vm_compute. reflexivity.
    + apply map_Forall_to_list. vm_compute map_to_list. repeat constructor.
    + intros n. exists "ok". reflexivity.
    + exists w'. split; [exact Em|].
      rewrite Ht, executions_app, executions_sessions. reflexivity.
Defined.

End ElevenStages.

(** ** Computations that only print *)

Section Quiet.

Lemma quiet_print (l : line) : quiet (print l).
Proof. intros w. exists (log_line l w). repeat split; reflexivity. Qed.

Lemma quiet_ret : quiet (ret tt).
Proof. intros w. exists w. repeat split; reflexivity. Qed.

Lemma quiet_bind (m : M unit) (k : unit → M unit) :
  quiet m → (∀ u, quiet (k u)) → quiet (m ≫= k).
Proof.
  intros Hm Hk w. destruct (Hm w) as (w1 & Em & Ht1 & Hr1 & Hs1 & Hf1).
  destruct (Hk tt w1) as (w2 & Ek & Ht2 & Hr2 & Hs2 & Hf2).
  exists w2. unfold mbind, M_bind, bind. rewrite Em.
  split; [exact Ek|]. repeat split; congruence.
Qed.

Lemma quiet_for_each {A} (items : list A) (body : A → M unit) :
  (∀ x, quiet (body x)) → quiet (for_each items body).
Proof.
  intros Hb. induction items as [|x items IH]; cbn [for_each].
  - apply quiet_ret.
  - apply quiet_bind; [apply Hb | intros _; exact IH].
Qed.

Ltac quiet_all :=
  repeat first
    [ apply quiet_print
    | apply quiet_ret
    | apply quiet_for_each; intros ?
    | apply quiet_bind; [|intros ?] ].

Lemma quiet_print_usage : quiet print_usage.
Proof. unfold print_usage. quiet_all. Qed.

Lemma quiet_print_position_info (position : string) :
  quiet (print_position_info position).
Proof.
  unfold print_position_info.
  destruct (POSITION_DATA !! position) as [data|]; [|apply quiet_ret].
  destruct (rotation data =? 0), (rotation data <? 0); quiet_all.
Qed.

End Quiet.

(** ** Configuration errors and equal squares *)

Section Rejections.

(** C7. When [command.json] is missing or is not valid JSON, the
    orchestrator prints a message naming the problem and returns at once:
    no request is sent to the tool server and the trace is unchanged. *)
Theorem config_error_before_motion (from_position to_position : string) (w : world) :
  (command_json w = Missing →
   ∃ w', move_chess_piece from_position to_position w = (Ok tt, w') ∧
         trace w' = trace w ∧ requests w' = requests w ∧
         console w' = console w ++ [[Text "❌ Error: command.json file not found"]]) ∧
  (command_json w = Malformed →
   ∃ w', move_chess_piece from_position to_position w = (Ok tt, w') ∧
         trace w' = trace w ∧ requests w' = requests w ∧
         console w' =
           console w ++ [[Text "❌ Error: Invalid JSON format in command.json"]]).
Proof.
  split; intros Hfile; unfold move_chess_piece;
    rewrite bind_read_command_json, Hfile;
    eexists; repeat split; reflexivity.
Qed.

Lemma config_error_before_motion_witness :
  (∃ w', move_chess_piece "d7" "d5" (start Missing always_ok) = (Ok tt, w') ∧
         trace w' = [] ∧ requests w' = 0%nat ∧
         console w' = [[Text "❌ Error: command.json file not found"]]) ∧
  (∃ w', move_chess_piece "d7" "d5" (start Malformed always_ok) = (Ok tt, w') ∧
         trace w' = [] ∧ requests w' = 0%nat ∧
         console w' = [[Text "❌ Error: Invalid JSON format in command.json"]]).
Proof.
  split.
  - apply (proj1 (config_error_before_motion "d7" "d5" (start Missing always_ok))).
    reflexivity.
  - apply (proj2 (config_error_before_motion "d7" "d5" (start Malformed always_ok))).
    reflexivity.
Defined.

(** C8. When the two arguments name the same square, [main] returns
    before anything is executed: nothing is sent to the tool server. The
    comparison is made by [main] itself, after both arguments have passed
    the validator, which looks at one position at a time and accepts each
    of them (as for "e4" and "e4"). *)
Theorem same_square_rejected (program arg1 arg2 : string) (w : world) :
  Py.lower arg1 = Py.lower arg2 →
  (∃ w', main [program; arg1; arg2] w = (Ok tt, w') ∧
         trace w' = trace w ∧ requests w' = requests w) ∧
  (validate_position (Py.lower arg1) = (true, "Valid") →
   validate_position (Py.lower arg2) = (true, "Valid") ∧
   main [program; arg1; arg2] w =
     (Ok tt, log_line [Text "❌ Error: From and to positions cannot be the same";
                       Text Py.nl] w)).
Proof.
  intros Hsame. split.
  - unfold main. rewrite <- Hsame.
    destruct (validate_position (Py.lower arg1)) as [[] message]; cbn [negb].
    + rewrite bool_decide_eq_true_2 by reflexivity.
      eexists; repeat split; reflexivity.
    + destruct (quiet_bind (print [Text "❌ Error: From position - "; Text message;
                                   Text Py.nl]) (fun _ => print_usage)
                  (quiet_print _) (fun _ => quiet_print_usage) w)
        as (w' & E & Ht & Hr & _).
      exists w'. repeat split; assumption.
  - intros Hvalid. split; [rewrite <- Hsame; exact Hvalid|].
    unfold main. rewrite <- Hsame, Hvalid. cbn [negb].
    rewrite bool_decide_eq_true_2 by reflexivity. reflexivity.
Qed.

Lemma same_square_rejected_witness :
  main ["app.py"; "e4"; "e4"] (start (Json demo_commands) always_ok) =
    (Ok tt, log_line [Text "❌ Error: From and to positions cannot be the same";
                      Text Py.nl] (start (Json demo_commands) always_ok)).
Proof.
  apply (same_square_rejected "app.py" "e4" "e4").
  - reflexivity.
  - vm_compute. reflexivity.
Defined.

End Rejections.

(** ** Case normalisation at the command line *)

Section CaseNormalisation.

Lemma lower_char_idempotent (c : ascii) :
  Py.lower_char (Py.lower_char c) = Py.lower_char c.
Proof. destruct c as [[] [] [] [] [] [] [] []]; reflexivity. Qed.

Lemma lower_idempotent (s : string) : Py.lower (Py.lower s) = Py.lower s.
Proof.
  induction s as [|c s IH]; [reflexivity|].
  unfold Py.lower in *. cbn [Py.map_chars].
  rewrite lower_char_idempotent, IH. reflexivity.
Qed.

(** C10. [main] lowercases both arguments before anything else: a run on
    [arg1], [arg2] is the run on their lowercase forms; when these pass
    the validator and differ, the position details are printed and the
    move is made for the lowercase forms. So "D7", which the validator
    alone rejects, is accepted at the command line and treated as "d7". *)
Theorem main_lowercases_arguments (program arg1 arg2 : string) (w : world) :
  main [program; arg1; arg2] w = main [program; Py.lower arg1; Py.lower arg2] w ∧
  (∀ m1 m2,
     validate_position (Py.lower arg1) = (true, m1) →
     validate_position (Py.lower arg2) = (true, m2) →
     Py.lower arg1 ≠ Py.lower arg2 →
     main [program; arg1; arg2] w =
       (print [Text "🤖 Chess Robot Controller - Move Execution"] ;;
        print [Text (Py.repeat "=" 50)] ;;
        print_position_info (Py.lower arg1) ;;
        print_position_info (Py.lower arg2) ;;
        print [Text Py.nl; Text "🎯 Executing move sequence..."] ;;
        print [Text (Py.repeat "=" 50)] ;;
        move_chess_piece (Py.lower arg1) (Py.lower arg2)) w) ∧
  (fst (validate_position "D7") = false ∧
   validate_position (Py.lower "D7") = (true, "Valid") ∧
   main [program; "D7"; arg2] w = main [program; "d7"; arg2] w).
Proof.
  split; [|split].
  - unfold main. rewrite !lower_idempotent. reflexivity.
  - intros m1 m2 H1 H2 Hne. unfold main. rewrite H1, H2. cbn [negb].
    rewrite bool_decide_eq_false_2 by exact Hne. reflexivity.
  - repeat split; reflexivity.
Qed.

Lemma main_lowercases_arguments_witness :
  let w := start (Json demo_commands) always_ok in
  main ["app.py"; "D7"; "D5"] w = main ["app.py"; "d7"; "d5"] w ∧
  main ["app.py"; "D7"; "D5"] w =
    (print [Text "🤖 Chess Robot Controller - Move Execution"] ;;
     print [Text (Py.repeat "=" 50)] ;;
     print_position_info "d7" ;;
     print_position_info "d5" ;;
     print [Text Py.nl; Text "🎯 Executing move sequence..."] ;;
     print [Text (Py.repeat "=" 50)] ;;
     move_chess_piece "d7" "d5") w.
Proof.
  intros w. split.
  - apply (proj1 (main_lowercases_arguments "app.py" "D7" "D5" w)).
  - apply (proj1 (proj2 (main_lowercases_arguments "app.py" "D7" "D5" w)) "Valid" "Valid").
    + vm_compute. reflexivity.
    + vm_compute. reflexivity.
    + intros H. discriminate H.
Defined.

End CaseNormalisation.

(** ** Dispatch failures *)

Section DispatchFailure.

Lemma clean_app (a b : list event) : clean a → clean b → clean (a ++ b).
Proof. intros Ha Hb. apply Forall_app. split; assumption. Qed.

Lemma verdict_prefix {A} (r : result A) (a delta : list event) :
  clean a → verdict r delta → verdict r (a ++ delta).
Proof.
  intros Ha. destruct r as [x|[|message]]; cbn [verdict].
  - apply clean_app, Ha.
  - apply clean_app, Ha.
  - intros [Hc | (pre & r & post & -> & Hpre & Hpost)].
    + left. apply clean_app; assumption.
    + right. exists (a ++ pre), r, post.
      rewrite app_assoc. split; [reflexivity|].
      split; [apply clean_app; assumption | exact Hpost].
Qed.

Lemma disciplined_ret {A} (a : A) : disciplined (ret a).
Proof. intros w. exists []. rewrite app_nil_r. split; [reflexivity|constructor]. Qed.

Lemma disciplined_raise {A} (e : exn) : disciplined (@raise A e).
Proof.
  intros w. exists []. rewrite app_nil_r. split; [reflexivity|].
  destruct e; cbn; [constructor | left; constructor].
Qed.

Lemma disciplined_print (l : line) : disciplined (print l).
Proof. intros w. exists []. rewrite app_nil_r. split; [reflexivity|constructor]. Qed.

Lemma disciplined_sleep (seconds : Q) : disciplined (sleep seconds).
Proof.
  intros w. exists [Sleep seconds]. split; [reflexivity|].
  repeat constructor.
Qed.

Lemma disciplined_send (r : request) : disciplined (send r).
Proof.
  intros w. exists [Request r (server w (requests w))]. unfold send.
  destruct (server w (requests w)) as [answer|message|]; cbn.
  - split; [reflexivity|]. repeat constructor.
  - split; [reflexivity|]. right. exists [], r, [].
    split; [reflexivity|]. split; constructor.
  - split; [reflexivity|]. repeat constructor.
Qed.

Lemma disciplined_bind {A B} (m : M A) (k : A → M B) :
  disciplined m → (∀ a, disciplined (k a)) → disciplined (m ≫= k).
Proof.
  intros Hm Hk w. destruct (Hm w) as (d1 & Ht1 & Hv1).
  unfold mbind, M_bind, bind.
  destruct (m w) as [[a|e] w1]; cbn [fst snd] in *.
  - destruct (Hk a w1) as (d2 & Ht2 & Hv2).
    exists (d1 ++ d2). rewrite Ht2, Ht1, app_assoc. split; [reflexivity|].
    apply verdict_prefix; assumption.
  - exists d1. split; [exact Ht1|]. destruct e; exact Hv1.
Qed.

Lemma reraises_print {A} (l : string → line) :
  reraises (fun e => print (l e) ;; @raise A (Exception e)).
Proof. intros message w. split; reflexivity. Qed.

Lemma disciplined_try_except {A} (body : M A) (handler : string → M A) :
  disciplined body → reraises handler → disciplined (try_except body handler).
Proof.
  intros Hb Hh w. destruct (Hb w) as (d & Ht & Hv). exists d.
  unfold try_except.
  destruct (body w) as [[a|[|message]] w1]; cbn [fst snd] in *;
    try (split; assumption).
  destruct (Hh message w1) as [Hr Htr]. rewrite Hr, Htr.
  split; assumption.
Qed.

Lemma disciplined_finally_close {A} (body : M A) :
  disciplined body → disciplined (finally_close body).
Proof.
  intros Hb w. destruct (Hb w) as (d & Ht & Hv). exists (d ++ [Close]).
  unfold finally_close.
  destruct (body w) as [r w1]; cbn [fst snd log_event trace] in *.
  rewrite Ht, app_assoc. split; [reflexivity|].
  assert (Hc : clean d → clean (d ++ [Close]))
    by (intros H; apply clean_app; [exact H | repeat constructor]).
  destruct r as [a|[|message]]; cbn [verdict] in *; try (apply Hc, Hv).
  destruct Hv as [Hv | (pre & r & post & -> & Hpre & Hpost)].
  - left. apply Hc, Hv.
  - right. exists pre, r, (post ++ [Close]).
    rewrite <- app_assoc. split; [reflexivity|]. split; [exact Hpre|].
    apply Forall_app. split; [exact Hpost | repeat constructor].
Qed.

Lemma disciplined_getitem {V} key (field : option V) : disciplined (getitem key field).
Proof. destruct field; [apply disciplined_ret | apply disciplined_raise]. Qed.

Lemma disciplined_for_each {A} (items : list A) (body : A → M unit) :
  (∀ x, disciplined (body x)) → disciplined (for_each items body).
Proof.
  intros Hb. induction items as [|x items IH]; cbn [for_each].
  - apply disciplined_ret.
  - apply disciplined_bind; [apply Hb | intros _; exact IH].
Qed.

Lemma disciplined_quiet (m : M unit) : quiet m → disciplined m.
Proof.
  intros Hq w. destruct (Hq w) as (w' & E & Ht & _). exists [].
  rewrite E, app_nil_r. split; [exact Ht | constructor].
Qed.

Ltac disciplined_with leaf :=
  repeat match goal with
    | |- disciplined (print _) => apply disciplined_print
    | |- disciplined (sleep _) => apply disciplined_sleep
    | |- disciplined (send _) => apply disciplined_send
    | |- disciplined (getitem _ _) => apply disciplined_getitem
    | |- disciplined (finally_close _) => apply disciplined_finally_close
    | |- disciplined (try_except _ _) =>
        apply disciplined_try_except; [|apply reraises_print]
    | |- disciplined (for_each _ _) => apply disciplined_for_each; intros ?
    | |- disciplined (_ ≫= _) => apply disciplined_bind; [|intros ?]
    | |- disciplined _ => leaf
    end.

Lemma disciplined_execute_step (s : step) : disciplined (execute_step s).
Proof. unfold execute_step. destruct (wait s); disciplined_with fail. Qed.

Lemma disciplined_execute_robot_sequence (steps : sequence) :
  disciplined (execute_robot_sequence steps).
Proof.
  unfold execute_robot_sequence, async_with_session.
  disciplined_with
    ltac:(idtac; match goal with
          | |- disciplined (execute_step _) => apply disciplined_execute_step
          end).
Qed.

Lemma disciplined_execute_command_sequence label (commands : gmap string sequence) :
  disciplined (execute_command_sequence label commands).
Proof.
  unfold execute_command_sequence.
  destruct (commands !! label);
    disciplined_with
      ltac:(idtac; match goal with
            | |- disciplined (execute_robot_sequence _) =>
                apply disciplined_execute_robot_sequence
            end).
Qed.

Lemma disciplined_move_chess_piece (from_position to_position : string) :
  disciplined (move_chess_piece from_position to_position).
Proof.
  intros w. unfold move_chess_piece. rewrite bind_read_command_json.
  destruct (command_json w) as [| |commands]; try apply (disciplined_print _ w).
  revert w.
  match goal with
  | |- ∀ w, ∃ delta, trace (?m w).2 = _ ∧ _ => change (disciplined m)
  end.
  destruct (negb (bool_decide (is_Some (commands !! from_position))));
    [apply disciplined_print|].
  destruct (negb (bool_decide (is_Some (commands !! to_position))));
    [apply disciplined_print|].
  disciplined_with
    ltac:(idtac; match goal with
          | |- disciplined (execute_command_sequence _ _) =>
              apply disciplined_execute_command_sequence
          | |- disciplined (execute_robot_sequence _) =>
              apply disciplined_execute_robot_sequence
          end).
Qed.

Lemma disciplined_main (argv : list string) : disciplined (main argv).
Proof.
  assert (Husage : ∀ l, disciplined (print l ;; print_usage)).
  { intros l. apply disciplined_quiet, quiet_bind;
      [apply quiet_print | intros _; apply quiet_print_usage]. }
  unfold main.
  destruct argv as [|program [|arg1 [|arg2 [|extra argv]]]]; try apply Husage.
  destruct (validate_position (Py.lower arg1)) as [[] m1]; cbn [negb];
    [|apply Husage].
  destruct (validate_position (Py.lower arg2)) as [[] m2]; cbn [negb];
    [|apply Husage].
  destruct (bool_decide (Py.lower arg1 = Py.lower arg2)); [apply disciplined_print|].
  disciplined_with
    ltac:(idtac; match goal with
          | |- disciplined (print_position_info _) =>
              apply disciplined_quiet, quiet_print_position_info
          | |- disciplined (move_chess_piece _ _) =>
              apply disciplined_move_chess_piece
          end).
Qed.

(** A trace with one failed request, clean before it and settled after
    it, splits around a failed request in one way only. *)
Lemma failure_position (pre pre' post post' : list event) (x x' : event) :
  pre ++ x :: post = pre' ++ x' :: post' →
  failure x = true → clean pre' → settled post' →
  pre = pre' ∧ x = x' ∧ post = post'.
Proof.
  revert pre. induction pre' as [|y pre' IH]; intros pre Heq Hx Hpre Hpost.
  - destruct pre as [|z pre]; cbn in Heq.
    + injection Heq as -> ->. repeat split.
    + injection Heq as -> <-.
      exfalso. apply Forall_app in Hpost as [_ Hpost].
      apply Forall_cons in Hpost as [-> _]. discriminate Hx.
  - apply Forall_cons in Hpre as [Hy Hpre].
    destruct pre as [|z pre]; cbn in Heq.
    + injection Heq as -> _. rewrite Hx in Hy. discriminate Hy.
    + injection Heq as -> Heq.
      destruct (IH pre Heq Hx Hpre Hpost) as (-> & -> & ->). repeat split.
Qed.

Lemma failure_verdict {A} (m : M A) (w : world) pre r message post :
  disciplined m →
  trace (m w).2 = trace w ++ pre ++ Request r (Fails message) :: post →
  (m w).1 = Raise (Exception message) ∧ clean pre ∧ settled post.
Proof.
  intros Hm Ht. destruct (Hm w) as (delta & Hd & Hv).
  rewrite Hd in Ht. apply app_inv_head in Ht. subst delta.
  assert (Hdirty : ¬ clean (pre ++ Request r (Fails message) :: post)).
  { intros Hc. apply Forall_app in Hc as [_ Hc].
    apply Forall_cons in Hc as [Hc _]. discriminate Hc. }
  destruct (m w).1 as [a|[|message']]; cbn [verdict] in Hv;
    try (contradiction).
  destruct Hv as [Hc | (pre' & r' & post' & Heq & Hpre & Hpost)];
    [contradiction|].
  destruct (failure_position _ _ _ _ _ _ Heq eq_refl Hpre Hpost)
    as (-> & Hx & ->).
  injection Hx as -> ->. repeat split; assumption.
Qed.

(** C6. Whatever the sequence, when a request to the tool server fails
    during its execution, the executor ends with an exception carrying the
    failure: no request had failed before, and after it nothing happens
    but the closing of the session, so the rest of the sequence is not run
    and nothing is tried again. The same holds for the orchestrator, which
    raises the same exception, and for the whole program, which prints the
    "Unexpected error" line and exits with status 1. *)
Theorem dispatch_failure_propagates :
  (∀ (steps : sequence) (w : world) pre r message post,
     trace (execute_robot_sequence steps w).2 =
       trace w ++ pre ++ Request r (Fails message) :: post →
     (execute_robot_sequence steps w).1 = Raise (Exception message) ∧
     clean pre ∧ settled post) ∧
  (∀ (from_position to_position : string) (w : world) pre r message post,
     trace (move_chess_piece from_position to_position w).2 =
       trace w ++ pre ++ Request r (Fails message) :: post →
     (move_chess_piece from_position to_position w).1 = Raise (Exception message) ∧
     clean pre ∧ settled post) ∧
  (∀ (argv : list string) (w : world) pre r message post,
     trace (run argv w).2 =
       trace w ++ pre ++ Request r (Fails message) :: post →
     (run argv w).1 = 1 ∧
     clean pre ∧ settled post ∧
     last (console (run argv w).2) =
       Some [Text Py.nl; Text "💥 Unexpected error: "; Text message]).
Proof.
  split; [|split].
  - intros steps w pre r message post.
    apply failure_verdict, disciplined_execute_robot_sequence.
  - intros from_position to_position w pre r message post.
    apply failure_verdict, disciplined_move_chess_piece.
  - intros argv w pre r message post Ht.
    assert (Hmain : trace (main argv w).2 =
                    trace w ++ pre ++ Request r (Fails message) :: post).
    { rewrite <- Ht. unfold run.
      destruct (main argv w) as [[a|[|e]] w1]; reflexivity. }
    destruct (failure_verdict _ _ _ _ _ _ (disciplined_main argv) Hmain)
      as (Hr & Hpre & Hpost).
    unfold run. destruct (main argv w) as [res w1]. cbn [fst] in Hr. subst res.
    cbn [fst snd log_line console]. rewrite last_snoc.
    repeat split; assumption.
Qed.

Lemma dispatch_failure_propagates_witness :
  let w := start (Json demo_commands) (fails_at 5 "boom") in
  (run ["app.py"; "d7"; "d5"] w).1 = 1 ∧
  last (console (run ["app.py"; "d7"; "d5"] w).2) =
    Some [Text Py.nl; Text "💥 Unexpected error: "; Text "boom"].
Proof.
  intros w.
  destruct (proj2 (proj2 dispatch_failure_propagates) ["app.py"; "d7"; "d5"] w
              [Request Spawn (Returns "ok");
               Request Initialize (Returns "ok");
               Request (CallTool "move_robot" [("move_gripper_up_mm", "20")])
                 (Returns "ok");
               Sleep (3 # 10);
               Close;
               Request Spawn (Returns "ok");
               Request Initialize (Returns "ok")]
              (CallTool "control_gripper" [("gripper_openness_pct", "100")])
              "boom"
              [Close])
    as (Hcode & _ & _ & Hlast).
  - vm_compute. reflexivity.
  - split; [exact Hcode | exact Hlast].
Defined.

End DispatchFailure.


(** * Further properties of the program *)

(** ** What the validator accepts *)

Section Accepted.

Lemma keys_are_coordinates (s : string) :
  is_Some (POSITION_DATA !! s) → s ∈ coordinates.
Proof.
  intros [e He]. apply elem_of_map_to_list in He.
  assert (Hall : Forall (fun kv : string * PositionEntry => kv.1 ∈ coordinates)
                        (map_to_list POSITION_DATA)).
  { apply (bool_decide_unpack _). vm_compute. exact I. }
  exact (proj1 (Forall_forall _ _) Hall (s, e) He).
Qed.

Lemma coordinates_are_valid :
  Forall (fun s => validate_position s = (true, "Valid")) coordinates.
Proof.
  apply (bool_decide_unpack _). vm_compute. exact I.
Qed.

(** X1. The validator accepts exactly the 64 coordinates, which are
    exactly the keys of the position table; whenever it accepts, its
    message is "Valid", and whenever it rejects, the flag is false and the
    message is not "Valid". *)
Theorem validate_position_accepts (s : string) :
  (validate_position s = (true, "Valid") ↔ s ∈ coordinates) ∧
  (s ∈ coordinates ↔ is_Some (POSITION_DATA !! s)) ∧
  (fst (validate_position s) = true → validate_position s = (true, "Valid")) ∧
  (fst (validate_position s) = false → snd (validate_position s) ≠ "Valid").
Proof.
  assert (Hin : s ∈ coordinates → validate_position s = (true, "Valid"))
    by exact (proj1 (Forall_forall _ _) coordinates_are_valid s).
  assert (Hkey : ∀ m, validate_position s = (true, m) → s ∈ coordinates)
    by (intros m Hm; eapply keys_are_coordinates, validated_is_key, Hm).
  split; [split; [apply Hkey | exact Hin]|].
  split; [split; [apply lookup_coordinate | apply keys_are_coordinates]|].
  split.
  - intros Hfst. apply Hin.
    destruct (validate_position s) as [flag m] eqn:Hv. cbn in Hfst. subst flag.
    apply (Hkey m). reflexivity.
  - unfold validate_position.
    repeat (match goal with
            | |- context [if negb ?b then _ else _] => destruct b; cbn [negb]
            end; try (intros _ H; discriminate H)).
    intros H. discriminate H.
Qed.

Lemma validate_position_accepts_witness :
  validate_position "h1" = (true, "Valid") ∧ "h1" ∈ coordinates ∧
  is_Some (POSITION_DATA !! "h1") ∧
  snd (validate_position "h9") ≠ "Valid".
Proof.
  split; [|split; [|split]].
  - apply (proj1 (proj2 (proj2 (validate_position_accepts "h1")))).
    vm_compute. reflexivity.
  - apply (proj1 (proj1 (validate_position_accepts "h1"))).
    vm_compute. reflexivity.
  - apply (proj1 (proj1 (proj2 (validate_position_accepts "h1")))).
    apply (proj1 (proj1 (validate_position_accepts "h1"))).
    vm_compute. reflexivity.
  - apply (proj2 (proj2 (proj2 (validate_position_accepts "h9")))).
    vm_compute. reflexivity.
Defined.

End Accepted.

(** ** The retreat of the home sequence *)

Section Retreat.

Lemma str_of_negation (n : Z) : "-" +:+ Py.str n = Py.str (- n) ↔ 0 < n.
Proof.
  destruct n as [|p|p].
  - split; [intros H; discriminate H | lia].
  - split; [lia | intros _; reflexivity].
  - split; [|lia]. intros H. exfalso. revert H.
    change (- Z.neg p) with (Z.pos p).
    unfold Py.str, Z.to_int, NilZero.string_of_int.
    destruct (Pos.to_uint p); cbn; intros H; discriminate H.
Qed.

(** X2. The fourth home instruction retreats by ["-" + str(forward)]. That
    text is the decimal of [-forward] exactly when [forward > 0]; for zero
    it is "-0" and for a negative distance it starts with two minus signs.
    Every entry of the position table has a positive distance, so for every
    table entry the instruction carries the decimal of [-forward]. *)
Theorem home_retreat :
  (∀ forward_distance rotation_angle : Z,
     create_home_sequence forward_distance rotation_angle !! 3%nat =
       Some (move_robot "move_gripper_forward_mm" (Py.str (- forward_distance)))
     ↔ 0 < forward_distance) ∧
  create_home_sequence 0 0 !! 3%nat =
    Some (move_robot "move_gripper_forward_mm" "-0") ∧
  create_home_sequence (-5) 0 !! 3%nat =
    Some (move_robot "move_gripper_forward_mm" "--5") ∧
  map_Forall (fun _ e => home e !! 3%nat =
                Some (move_robot "move_gripper_forward_mm" (Py.str (- forward e))))
             POSITION_DATA.
Proof.
  assert (Hfourth : ∀ f r, create_home_sequence f r !! 3%nat =
            Some (move_robot "move_gripper_forward_mm" ("-" +:+ Py.str f))).
  { intros f r. unfold create_home_sequence.
    destruct (negb (_ =? 0)); reflexivity. }
  split; [|split; [reflexivity|split; [reflexivity|]]].
  - intros f r. rewrite Hfourth, <- str_of_negation.
    split; [intros H; injection H as H; exact H | intros ->; reflexivity].
  - intros k e Hk. unfold home. rewrite Hfourth.
    rewrite (proj2 (str_of_negation (forward e))); [reflexivity|].
    apply (entries_in_range k e Hk).
Qed.

Lemma home_retreat_witness :
  create_home_sequence 150 22 !! 3%nat =
    Some (move_robot "move_gripper_forward_mm" "-150").
Proof.
  apply (proj2 (proj1 home_retreat 150 22)). reflexivity.
Defined.

End Retreat.

(** ** Rejections before any motion *)

Section CommandLine.












(** X5. The orchestrator checks the store before anything else is done.
    A source position that is not a label of the store is reported and the
    orchestrator returns; so is a destination position when the source is
    there. When both are labels of the store but one is not a key of the
    position table, the table lookup raises the [KeyError] of that position
    (the source first). In all four cases nothing is sent to the tool
    server. *)
Theorem positions_must_be_stored (commands : gmap string sequence)
    (from_position to_position : string) (w : world) :
  command_json w = Json commands →
  (commands !! from_position = None →
   move_chess_piece from_position to_position w =
     (Ok tt, says [[Text "❌ Error: Position '"; Text from_position;
                    Text "' not found in commands.json"]] w)) ∧
  (is_Some (commands !! from_position) → commands !! to_position = None →
   move_chess_piece from_position to_position w =
     (Ok tt, says [[Text "❌ Error: Position '"; Text to_position;
                    Text "' not found in commands.json"]] w)) ∧
  (is_Some (commands !! from_position) → is_Some (commands !! to_position) →
   POSITION_DATA !! from_position = None →
   move_chess_piece from_position to_position w =
     (Raise (Exception ("'" +:+ from_position +:+ "'")), w)) ∧
  (is_Some (commands !! from_position) → is_Some (commands !! to_position) →
   is_Some (POSITION_DATA !! from_position) →
   POSITION_DATA !! to_position = None →
   move_chess_piece from_position to_position w =
     (Raise (Exception ("'" +:+ to_position +:+ "'")), w)).
Proof.
  intros Hfile. unfold move_chess_piece. rewrite bind_read_command_json, Hfile.
  split; [|split; [|split]].
  - intros Hfrom. rewrite bool_decide_eq_false_2; [reflexivity|].
    rewrite Hfrom. intros [? H]. discriminate H.
  - intros Hfrom Hto. rewrite (bool_decide_eq_true_2 _ Hfrom). cbn [negb].
    rewrite bool_decide_eq_false_2; [reflexivity|].
    rewrite Hto. intros [? H]. discriminate H.
  - intros Hfrom Hto Hkey.
    rewrite (bool_decide_eq_true_2 _ Hfrom), (bool_decide_eq_true_2 _ Hto), Hkey.
    reflexivity.
  - intros Hfrom Hto [e Hkey] Hkey'.
    rewrite (bool_decide_eq_true_2 _ Hfrom), (bool_decide_eq_true_2 _ Hto), Hkey, Hkey'.
    reflexivity.
Qed.

Lemma positions_must_be_stored_witness :
  let w := start (Json demo_commands) always_ok in
  move_chess_piece "e2" "d5" w =
    (Ok tt, says [[Text "❌ Error: Position '"; Text "e2";
                   Text "' not found in commands.json"]] w) ∧
  move_chess_piece "d7" "e4" w =
    (Ok tt, says [[Text "❌ Error: Position '"; Text "e4";
                   Text "' not found in commands.json"]] w) ∧
  move_chess_piece "attack" "d5" w = (Raise (Exception "'attack'"), w) ∧
  move_chess_piece "d7" "open" w = (Raise (Exception "'open'"), w).
Proof.
  intros w.
  destruct (positions_must_be_stored demo_commands "e2" "d5" w eq_refl) as (H1 & _).
  destruct (positions_must_be_stored demo_commands "d7" "e4" w eq_refl) as (_ & H2 & _).
  destruct (positions_must_be_stored demo_commands "attack" "d5" w eq_refl)
    as (_ & _ & H3 & _).
  destruct (positions_must_be_stored demo_commands "d7" "open" w eq_refl)
    as (_ & _ & _ & H4).
  split; [apply H1; vm_compute; reflexivity|].
  split; [apply H2; vm_compute; eauto|].
  split; [apply H3; vm_compute; eauto|].
  apply H4; vm_compute; eauto.
Defined.

End CommandLine.

(** ** The protocol with the tool server *)

Section Protocol.

Lemma protocol_app (p : phase) (a b : list event) :
  protocol p (a ++ b) =
  match protocol p a with
  | Some p' => protocol p' b
  | None => None
  end.
Proof.
  revert p. induction a as [|e a IH]; intros p; cbn [app protocol]; [reflexivity|].
  destruct (advance p e); [apply IH | reflexivity].
Qed.

Lemma in_session_ret {A} (a : A) : in_session Ready (ret a).
Proof. intros w. exists [], Ready. rewrite app_nil_r. repeat split. Qed.

Lemma in_session_raise {A} (e : exn) : in_session Ready (@raise A e).
Proof. intros w. exists [], Ready. rewrite app_nil_r. repeat split. left. reflexivity. Qed.

Lemma in_session_print (l : line) : in_session Ready (print l).
Proof. intros w. exists [], Ready. rewrite app_nil_r. repeat split. Qed.

Lemma in_session_bind {A B} (p : phase) (m : M A) (k : A → M B) :
  in_session p m → (∀ a, in_session Ready (k a)) → in_session p (m ≫= k).
Proof.
  intros Hm Hk w. destruct (Hm w) as (d1 & p1 & Ht1 & Hp1 & Hr1).
  unfold mbind, M_bind, bind.
  destruct (m w) as [[a|e] w1]; cbn [fst snd] in *.
  - subst p1. destruct (Hk a w1) as (d2 & p2 & Ht2 & Hp2 & Hr2).
    exists (d1 ++ d2), p2. rewrite Ht2, Ht1, app_assoc, protocol_app, Hp1.
    repeat split; assumption.
  - exists d1, p1. repeat split; assumption.
Qed.

Lemma in_session_initialize : in_session Spawned (send Initialize).
Proof.
  intros w. unfold send.
  destruct (server w (requests w)) as [answer|message|] eqn:E.
  - exists [Request Initialize (Returns answer)], Ready. repeat split.
  - exists [Request Initialize (Fails message)], Failed. repeat split. right. reflexivity.
  - exists [Request Initialize Interrupted], Failed. repeat split. right. reflexivity.
Qed.

Lemma in_session_execute_step (s : step) : in_session Ready (execute_step s).
Proof.
  intros w. unfold execute_step, mbind, M_bind, bind.
  destruct (wait s) as [seconds|]; cbn.
  - exists [Sleep seconds; Sleep (3 # 10)], Ready.
    rewrite <- app_assoc. repeat split.
  - destruct (tool s) as [name|]; cbn;
      [|exists [], Ready; rewrite app_nil_r; repeat split; left; reflexivity].
    destruct (args s) as [a|]; cbn;
      [|exists [], Ready; rewrite app_nil_r; repeat split; left; reflexivity].
    unfold send. cbn.
    destruct (server w (requests w)) as [answer|message|]; cbn.
    + exists [Request (CallTool name a) (Returns answer); Sleep (3 # 10)], Ready.
      rewrite <- app_assoc. repeat split.
    + exists [Request (CallTool name a) (Fails message)], Failed.
      repeat split. right. reflexivity.
    + exists [Request (CallTool name a) Interrupted], Failed.
      repeat split. right. reflexivity.
Qed.

Lemma in_session_for_each (steps : sequence) :
  in_session Ready (for_each steps execute_step).
Proof.
  induction steps as [|s steps IH]; cbn [for_each].
  - apply in_session_ret.
  - apply in_session_bind; [apply in_session_execute_step | intros _; exact IH].
Qed.

Lemma between_sessions_quiet (m : M unit) : quiet m → between_sessions m.
Proof.
  intros Hq w. destruct (Hq w) as (w' & E & Ht & _). exists [].
  rewrite E, app_nil_r. split; [exact Ht | reflexivity].
Qed.

Lemma between_sessions_print (l : line) : between_sessions (print l).
Proof. apply between_sessions_quiet, quiet_print. Qed.

Lemma between_sessions_getitem {V} key (field : option V) :
  between_sessions (getitem key field).
Proof. intros w. exists []. rewrite app_nil_r. destruct field; split; reflexivity. Qed.

Lemma between_sessions_bind {A B} (m : M A) (k : A → M B) :
  between_sessions m → (∀ a, between_sessions (k a)) → between_sessions (m ≫= k).
Proof.
  intros Hm Hk w. destruct (Hm w) as (d1 & Ht1 & Hp1).
  unfold mbind, M_bind, bind.
  destruct (m w) as [[a|e] w1]; cbn [fst snd] in *.
  - destruct (Hk a w1) as (d2 & Ht2 & Hp2).
    exists (d1 ++ d2). rewrite Ht2, Ht1, app_assoc, protocol_app, Hp1.
    split; [reflexivity | exact Hp2].
  - exists d1. split; assumption.
Qed.

Lemma between_sessions_try_except {A} (body : M A) (handler : string → M A) :
  between_sessions body → reraises handler →
  between_sessions (try_except body handler).
Proof.
  intros Hb Hh w. destruct (Hb w) as (d & Ht & Hp). exists d.
  unfold try_except.
  destruct (body w) as [[a|[|message]] w1]; cbn [fst snd] in *;
    try (split; assumption).
  destruct (Hh message w1) as [_ Htr]. rewrite Htr. split; assumption.
Qed.

Lemma between_sessions_async {A} (body : M A) :
  in_session Spawned body → between_sessions (async_with_session body).
Proof.
  intros Hb w. unfold async_with_session, mbind, M_bind, bind, send.
  destruct (server w (requests w)) as [answer|message|].
  - match goal with
    | |- context [finally_close body ?w1] =>
        destruct (Hb w1) as (d & p' & Ht & Hp & Hr); unfold finally_close;
        destruct (body w1) as [r w2]
    end.
    cbn [fst snd log_event next_request trace] in *.
    exists (Request Spawn (Returns answer) :: d ++ [Close]).
    split.
    + rewrite Ht, <- !app_assoc. reflexivity.
    + cbn [protocol advance]. rewrite protocol_app, Hp.
      destruct r as [a|e]; [subst p'; reflexivity|].
      destruct Hr as [-> | ->]; reflexivity.
  - exists [Request Spawn (Fails message)]. split; reflexivity.
  - exists [Request Spawn Interrupted]. split; reflexivity.
Qed.

Ltac between_sessions_with leaf :=
  repeat match goal with
    | |- between_sessions (print _) => apply between_sessions_print
    | |- between_sessions (getitem _ _) => apply between_sessions_getitem
    | |- between_sessions (try_except _ _) =>
        apply between_sessions_try_except; [|apply reraises_print]
    | |- between_sessions (_ ≫= _) => apply between_sessions_bind; [|intros ?]
    | |- between_sessions _ => leaf
    end.

Lemma between_sessions_execute_robot_sequence (steps : sequence) :
  between_sessions (execute_robot_sequence steps).
Proof.
  unfold execute_robot_sequence.
  apply between_sessions_try_except; [|apply reraises_print].
  apply between_sessions_async.
  apply in_session_bind; [apply in_session_initialize|].
  intros _. apply in_session_for_each.
Qed.

Lemma between_sessions_execute_command_sequence label
    (commands : gmap string sequence) :
  between_sessions (execute_command_sequence label commands).
Proof.
  unfold execute_command_sequence.
  destruct (commands !! label);
    between_sessions_with
      ltac:(idtac; match goal with
            | |- between_sessions (execute_robot_sequence _) =>
                apply between_sessions_execute_robot_sequence
            end).
Qed.

Lemma between_sessions_move_chess_piece (from_position to_position : string) :
  between_sessions (move_chess_piece from_position to_position).
Proof.
  intros w. unfold move_chess_piece. rewrite bind_read_command_json.
  destruct (command_json w) as [| |commands]; try apply (between_sessions_print _ w).
  revert w.
  match goal with
  | |- ∀ w, ∃ delta, trace (?m w).2 = _ ∧ _ => change (between_sessions m)
  end.
  destruct (negb (bool_decide (is_Some (commands !! from_position))));
    [apply between_sessions_print|].
  destruct (negb (bool_decide (is_Some (commands !! to_position))));
    [apply between_sessions_print|].
  between_sessions_with
    ltac:(idtac; match goal with
          | |- between_sessions (execute_command_sequence _ _) =>
              apply between_sessions_execute_command_sequence
          | |- between_sessions (execute_robot_sequence _) =>
              apply between_sessions_execute_robot_sequence
          end).
Qed.

Lemma between_sessions_main (argv : list string) : between_sessions (main argv).
Proof.
  assert (Husage : ∀ l, between_sessions (print l ;; print_usage)).
  { intros l. apply between_sessions_quiet, quiet_bind;
      [apply quiet_print | intros _; apply quiet_print_usage]. }
  unfold main.
  destruct argv as [|program [|arg1 [|arg2 [|extra argv]]]]; try apply Husage.
  destruct (validate_position (Py.lower arg1)) as [[] m1]; cbn [negb];
    [|apply Husage].
  destruct (validate_position (Py.lower arg2)) as [[] m2]; cbn [negb];
    [|apply Husage].
  destruct (bool_decide (Py.lower arg1 = Py.lower arg2));
    [apply between_sessions_print|].
  between_sessions_with
    ltac:(idtac; match goal with
          | |- between_sessions (print_position_info _) =>
              apply between_sessions_quiet, quiet_print_position_info
          | |- between_sessions (move_chess_piece _ _) =>
              apply between_sessions_move_chess_piece
          end).
Qed.

(** The machine tells protocol violations apart: a tool call outside a
    session and a second call without the pause in between are refused, and
    a session that is spawned and not closed does not end in [Idle]. *)
Lemma protocol_refuses :
  protocol Idle [Request (CallTool "move_robot" []) (Returns "ok")] = None ∧
  protocol Idle [Request Spawn (Returns "ok"); Request Initialize (Returns "ok");
                 Request (CallTool "move_robot" []) (Returns "ok");
                 Request (CallTool "move_robot" []) (Returns "ok")] = None ∧
  protocol Idle [Request Spawn (Returns "ok"); Request Initialize (Returns "ok")]
    = Some Ready.
Proof. repeat split. Qed.

(** X6. Whatever the arguments, the file and the server's answers, the
    events of a run follow the protocol: a tool is called only inside a
    session that was spawned and initialised; every call that returns is
    followed at once by the pause of 0.3 s; after a request that does not
    return, the session is only closed; every session that was spawned is
    closed before the next one is spawned and before the program ends. The
    same holds for one call of the executor and of the orchestrator. *)
Theorem run_follows_protocol :
  (∀ (steps : sequence) (w : world),
     ∃ delta, trace (execute_robot_sequence steps w).2 = trace w ++ delta ∧
              protocol Idle delta = Some Idle) ∧
  (∀ (from_position to_position : string) (w : world),
     ∃ delta, trace (move_chess_piece from_position to_position w).2 = trace w ++ delta ∧
              protocol Idle delta = Some Idle) ∧
  (∀ (argv : list string) (w : world),
     ∃ delta, trace (run argv w).2 = trace w ++ delta ∧
              protocol Idle delta = Some Idle).
Proof.
  split; [exact between_sessions_execute_robot_sequence|].
  split; [exact between_sessions_move_chess_piece|].
  intros argv w. destruct (between_sessions_main argv w) as (delta & Ht & Hp).
  exists delta. split; [|exact Hp].
  rewrite <- Ht. unfold run.
  destruct (main argv w) as [[a|[|e]] w1]; reflexivity.
Qed.

End Protocol.

(** ** Interrupts *)

Section Interrupt.

Lemma calm_app (a b : list event) : calm a → calm b → calm (a ++ b).
Proof. intros Ha Hb. apply Forall_app. split; assumption. Qed.

Lemma heard_prefix {A} (r : result A) (a delta : list event) :
  calm a → heard r delta → heard r (a ++ delta).
Proof.
  intros Ha. destruct r as [x|[|message]]; cbn [heard].
  - apply calm_app, Ha.
  - intros (pre & r & post & -> & Hpre & Hpost).
    exists (a ++ pre), r, post. rewrite app_assoc. split; [reflexivity|].
    split; [apply calm_app; assumption | exact Hpost].
  - apply calm_app, Ha.
Qed.

Lemma heedful_ret {A} (a : A) : heedful (ret a).
Proof. intros w. exists []. rewrite app_nil_r. split; [reflexivity|constructor]. Qed.

Lemma heedful_print (l : line) : heedful (print l).
Proof. intros w. exists []. rewrite app_nil_r. split; [reflexivity|constructor]. Qed.

Lemma heedful_sleep (seconds : Q) : heedful (sleep seconds).
Proof. intros w. exists [Sleep seconds]. split; [reflexivity|]. repeat constructor. Qed.

Lemma heedful_getitem {V} key (field : option V) : heedful (getitem key field).
Proof.
  intros w. exists []. rewrite app_nil_r.
  destruct field; (split; [reflexivity|constructor]).
Qed.

Lemma heedful_send (r : request) : heedful (send r).
Proof.
  intros w. exists [Request r (server w (requests w))]. unfold send.
  destruct (server w (requests w)) as [answer|message|]; cbn.
  - split; [reflexivity|]. repeat constructor.
  - split; [reflexivity|]. repeat constructor.
  - split; [reflexivity|]. exists [], r, []. split; [reflexivity|]. split; constructor.
Qed.

Lemma heedful_bind {A B} (m : M A) (k : A → M B) :
  heedful m → (∀ a, heedful (k a)) → heedful (m ≫= k).
Proof.
  intros Hm Hk w. destruct (Hm w) as (d1 & Ht1 & Hv1).
  unfold mbind, M_bind, bind.
  destruct (m w) as [[a|e] w1]; cbn [fst snd] in *.
  - destruct (Hk a w1) as (d2 & Ht2 & Hv2).
    exists (d1 ++ d2). rewrite Ht2, Ht1, app_assoc. split; [reflexivity|].
    apply heard_prefix; assumption.
  - exists d1. split; [exact Ht1|]. destruct e; exact Hv1.
Qed.

Lemma heedful_try_except {A} (body : M A) (handler : string → M A) :
  heedful body → reraises handler → heedful (try_except body handler).
Proof.
  intros Hb Hh w. destruct (Hb w) as (d & Ht & Hv). exists d.
  unfold try_except.
  destruct (body w) as [[a|[|message]] w1]; cbn [fst snd] in *;
    try (split; assumption).
  destruct (Hh message w1) as [Hr Htr]. rewrite Hr, Htr.
  split; assumption.
Qed.

Lemma heedful_finally_close {A} (body : M A) :
  heedful body → heedful (finally_close body).
Proof.
  intros Hb w. destruct (Hb w) as (d & Ht & Hv). exists (d ++ [Close]).
  unfold finally_close.
  destruct (body w) as [r w1]; cbn [fst snd log_event trace] in *.
  rewrite Ht, app_assoc. split; [reflexivity|].
  assert (Hc : calm d → calm (d ++ [Close]))
    by (intros H; apply calm_app; [exact H | repeat constructor]).
  destruct r as [a|[|message]]; cbn [heard] in *; try (apply Hc, Hv).
  destruct Hv as (pre & r & post & -> & Hpre & Hpost).
  exists pre, r, (post ++ [Close]).
  rewrite <- app_assoc. split; [reflexivity|]. split; [exact Hpre|].
  apply Forall_app. split; [exact Hpost | repeat constructor].
Qed.

Lemma heedful_for_each {A} (items : list A) (body : A → M unit) :
  (∀ x, heedful (body x)) → heedful (for_each items body).
Proof.
  intros Hb. induction items as [|x items IH]; cbn [for_each].
  - apply heedful_ret.
  - apply heedful_bind; [apply Hb | intros _; exact IH].
Qed.

Lemma heedful_quiet (m : M unit) : quiet m → heedful m.
Proof.
  intros Hq w. destruct (Hq w) as (w' & E & Ht & _). exists [].
  rewrite E, app_nil_r. split; [exact Ht | constructor].
Qed.

Ltac heedful_with leaf :=
  repeat match goal with
    | |- heedful (print _) => apply heedful_print
    | |- heedful (sleep _) => apply heedful_sleep
    | |- heedful (send _) => apply heedful_send
    | |- heedful (getitem _ _) => apply heedful_getitem
    | |- heedful (finally_close _) => apply heedful_finally_close
    | |- heedful (try_except _ _) =>
        apply heedful_try_except; [|apply reraises_print]
    | |- heedful (for_each _ _) => apply heedful_for_each; intros ?
    | |- heedful (_ ≫= _) => apply heedful_bind; [|intros ?]
    | |- heedful _ => leaf
    end.

Lemma heedful_execute_step (s : step) : heedful (execute_step s).
Proof. unfold execute_step. destruct (wait s); heedful_with fail. Qed.

Lemma heedful_execute_robot_sequence (steps : sequence) :
  heedful (execute_robot_sequence steps).
Proof.
  unfold execute_robot_sequence, async_with_session.
  heedful_with
    ltac:(idtac; match goal with
          | |- heedful (execute_step _) => apply heedful_execute_step
          end).
Qed.

Lemma heedful_execute_command_sequence label (commands : gmap string sequence) :
  heedful (execute_command_sequence label commands).
Proof.
  unfold execute_command_sequence.
  destruct (commands !! label);
    heedful_with
      ltac:(idtac; match goal with
            | |- heedful (execute_robot_sequence _) =>
                apply heedful_execute_robot_sequence
            end).
Qed.

Lemma heedful_move_chess_piece (from_position to_position : string) :
  heedful (move_chess_piece from_position to_position).
Proof.
  intros w. unfold move_chess_piece. rewrite bind_read_command_json.
  destruct (command_json w) as [| |commands]; try apply (heedful_print _ w).
  revert w.
  match goal with
  | |- ∀ w, ∃ delta, trace (?m w).2 = _ ∧ _ => change (heedful m)
  end.
  destruct (negb (bool_decide (is_Some (commands !! from_position))));
    [apply heedful_print|].
  destruct (negb (bool_decide (is_Some (commands !! to_position))));
    [apply heedful_print|].
  heedful_with
    ltac:(idtac; match goal with
          | |- heedful (execute_command_sequence _ _) =>
              apply heedful_execute_command_sequence
          | |- heedful (execute_robot_sequence _) =>
              apply heedful_execute_robot_sequence
          end).
Qed.

Lemma heedful_main (argv : list string) : heedful (main argv).
Proof.
  assert (Husage : ∀ l, heedful (print l ;; print_usage)).
  { intros l. apply heedful_quiet, quiet_bind;
      [apply quiet_print | intros _; apply quiet_print_usage]. }
  unfold main.
  destruct argv as [|program [|arg1 [|arg2 [|extra argv]]]]; try apply Husage.
  destruct (validate_position (Py.lower arg1)) as [[] m1]; cbn [negb];
    [|apply Husage].
  destruct (validate_position (Py.lower arg2)) as [[] m2]; cbn [negb];
    [|apply Husage].
  destruct (bool_decide (Py.lower arg1 = Py.lower arg2)); [apply heedful_print|].
  heedful_with
    ltac:(idtac; match goal with
          | |- heedful (print_position_info _) =>
              apply heedful_quiet, quiet_print_position_info
          | |- heedful (move_chess_piece _ _) =>
              apply heedful_move_chess_piece
          end).
Qed.

(** A list that is calm before an interrupted request and settled after it
    splits around an interrupted request in one way only. *)
Lemma interrupt_position (pre pre' post post' : list event) (x x' : event) :
  pre ++ x :: post = pre' ++ x' :: post' →
  interrupted x = true → calm pre' → settled post' →
  pre = pre' ∧ x = x' ∧ post = post'.
Proof.
  revert pre. induction pre' as [|y pre' IH]; intros pre Heq Hx Hpre Hpost.
  - destruct pre as [|z pre]; cbn in Heq.
    + injection Heq as -> ->. repeat split.
    + injection Heq as -> <-.
      exfalso. apply Forall_app in Hpost as [_ Hpost].
      apply Forall_cons in Hpost as [-> _]. discriminate Hx.
  - apply Forall_cons in Hpre as [Hy Hpre].
    destruct pre as [|z pre]; cbn in Heq.
    + injection Heq as -> _. rewrite Hx in Hy. discriminate Hy.
    + injection Heq as -> Heq.
      destruct (IH pre Heq Hx Hpre Hpost) as (-> & -> & ->). repeat split.
Qed.

Lemma interrupt_heard {A} (m : M A) (w : world) pre r post :
  heedful m →
  trace (m w).2 = trace w ++ pre ++ Request r Interrupted :: post →
  (m w).1 = Raise KeyboardInterrupt ∧ calm pre ∧ settled post.
Proof.
  intros Hm Ht. destruct (Hm w) as (delta & Hd & Hv).
  rewrite Hd in Ht. apply app_inv_head in Ht. subst delta.
  assert (Hloud : ¬ calm (pre ++ Request r Interrupted :: post)).
  { intros Hc. apply Forall_app in Hc as [_ Hc].
    apply Forall_cons in Hc as [Hc _]. discriminate Hc. }
  destruct (m w).1 as [a|[|message]]; cbn [heard] in Hv; try contradiction.
  destruct Hv as (pre' & r' & post' & Heq & Hpre & Hpost).
  destruct (interrupt_position _ _ _ _ _ _ Heq eq_refl Hpre Hpost) as (-> & _ & ->).
  repeat split; assumption.
Qed.

(** X7. When the user interrupts the program during a request to the tool
    server, the [except Exception] handlers of the executor and of the
    orchestrator do not catch it: both end with [KeyboardInterrupt]. No
    request had been interrupted before, and after it nothing happens but
    the closing of the session. The program prints "Move interrupted by
    user" and exits with status 0. *)
Theorem interrupt_ends_run :
  (∀ (steps : sequence) (w : world) pre r post,
     trace (execute_robot_sequence steps w).2 =
       trace w ++ pre ++ Request r Interrupted :: post →
     (execute_robot_sequence steps w).1 = Raise KeyboardInterrupt ∧
     calm pre ∧ settled post) ∧
  (∀ (from_position to_position : string) (w : world) pre r post,
     trace (move_chess_piece from_position to_position w).2 =
       trace w ++ pre ++ Request r Interrupted :: post →
     (move_chess_piece from_position to_position w).1 = Raise KeyboardInterrupt ∧
     calm pre ∧ settled post) ∧
  (∀ (argv : list string) (w : world) pre r post,
     trace (run argv w).2 = trace w ++ pre ++ Request r Interrupted :: post →
     (run argv w).1 = 0 ∧
     calm pre ∧ settled post ∧
     last (console (run argv w).2) =
       Some [Text Py.nl; Text "⏹️  Move interrupted by user"]).
Proof.
  split; [|split].
  - intros steps w pre r post.
    apply interrupt_heard, heedful_execute_robot_sequence.
  - intros from_position to_position w pre r post.
    apply interrupt_heard, heedful_move_chess_piece.
  - intros argv w pre r post Ht.
    assert (Hmain : trace (main argv w).2 =
                    trace w ++ pre ++ Request r Interrupted :: post).
    { rewrite <- Ht. unfold run.
      destruct (main argv w) as [[a|[|e]] w1]; reflexivity. }
    destruct (interrupt_heard _ _ _ _ _ (heedful_main argv) Hmain)
      as (Hr & Hpre & Hpost).
    unfold run. destruct (main argv w) as [res w1]. cbn [fst] in Hr. subst res.
    cbn [fst snd log_line console]. rewrite last_snoc.
    repeat split; assumption.
Qed.

Lemma interrupt_ends_run_witness :
  let w := start (Json demo_commands) (interrupted_at 5) in
  (run ["app.py"; "d7"; "d5"] w).1 = 0 ∧
  last (console (run ["app.py"; "d7"; "d5"] w).2) =
    Some [Text Py.nl; Text "⏹️  Move interrupted by user"].
Proof.
  intros w.
  destruct (proj2 (proj2 interrupt_ends_run) ["app.py"; "d7"; "d5"] w
              [Request Spawn (Returns "ok");
               Request Initialize (Returns "ok");
               Request (CallTool "move_robot" [("move_gripper_up_mm", "20")])
                 (Returns "ok");
               Sleep (3 # 10);
               Close;
               Request Spawn (Returns "ok");
               Request Initialize (Returns "ok")]
              (CallTool "control_gripper" [("gripper_openness_pct", "100")])
              [Close])
    as (Hcode & _ & _ & Hlast).
  - vm_compute. reflexivity.
  - split; [exact Hcode | exact Hlast].
Defined.

End Interrupt.

(** ** A whole run that goes well *)

Section WholeRun.

Lemma quiet_then {B} (m : M unit) (k : M B) (w : world) :
  quiet m →
  ∃ w1, (m ;; k) w = k w1 ∧ trace w1 = trace w ∧ server w1 = server w ∧
        command_json w1 = command_json w.
Proof.
  intros Hq. destruct (Hq w) as (w1 & E & Ht & _ & Hs & Hf).
  exists w1. unfold mbind, M_bind, bind. rewrite E. repeat split; assumption.
Qed.

Lemma quiet_prefix {B} (m : M unit) (k target : M B) (w0 w : world) :
  quiet m →
  trace w0 = trace w → server w0 = server w → command_json w0 = command_json w →
  (∀ w1, trace w1 = trace w → server w1 = server w →
         command_json w1 = command_json w →
         ∃ w2, k w1 = target w2 ∧ trace w2 = trace w ∧ server w2 = server w ∧
               command_json w2 = command_json w) →
  ∃ w2, (m ;; k) w0 = target w2 ∧ trace w2 = trace w ∧ server w2 = server w ∧
        command_json w2 = command_json w.
Proof.
  intros Hq Ht Hs Hf Hk.
  destruct (quiet_then m k w0 Hq) as (w1 & E & Ht1 & Hs1 & Hf1).
  rewrite E. apply Hk; congruence.
Qed.

(** With valid and different positions, [main] prints the headers and the
    position details and hands over to the orchestrator. *)
Lemma main_reaches_move (program arg1 arg2 : string) (w : world) (m1 m2 : string) :
  validate_position (Py.lower arg1) = (true, m1) →
  validate_position (Py.lower arg2) = (true, m2) →
  Py.lower arg1 ≠ Py.lower arg2 →
  ∃ w1, main [program; arg1; arg2] w =
          move_chess_piece (Py.lower arg1) (Py.lower arg2) w1 ∧
        trace w1 = trace w ∧ server w1 = server w ∧
        command_json w1 = command_json w.
Proof.
  intros Hv1 Hv2 Hne. unfold main. rewrite Hv1, Hv2. cbn [negb].
  rewrite (bool_decide_eq_false_2 _ Hne).
  apply quiet_prefix; [apply quiet_print | reflexivity.. | intros w1 ? ? ?].
  apply quiet_prefix; [apply quiet_print | assumption.. | intros w2 ? ? ?].
  apply quiet_prefix;
    [apply quiet_print_position_info | assumption.. | intros w3 ? ? ?].
  apply quiet_prefix;
    [apply quiet_print_position_info | assumption.. | intros w4 ? ? ?].
  apply quiet_prefix; [apply quiet_print | assumption.. | intros w5 ? ? ?].
  apply quiet_prefix; [apply quiet_print | assumption.. | intros w6 ? ? ?].
  exists w6. split; [reflexivity|]. repeat split; assumption.
Qed.

(** X8. From the command line to the exit status: when the lowercased
    arguments are valid and different, the store has both of them and the
    four fixed labels, every stored step is well formed and the server
    answers every request, the program exits with status 0 after the
    eleven sequence executions of the plan, for the lowercased positions,
    and leaves the file and the server as they were. *)
Theorem run_completes_move
    (commands : gmap string sequence) (program arg1 arg2 : string)
    (attack open close move_for_cam source destination : sequence) (w : world) :
  validate_position (Py.lower arg1) = (true, "Valid") →
  validate_position (Py.lower arg2) = (true, "Valid") →
  Py.lower arg1 ≠ Py.lower arg2 →
  command_json w = Json commands →
  commands !! Py.lower arg1 = Some source →
  commands !! Py.lower arg2 = Some destination →
  commands !! "attack" = Some attack →
  commands !! "open" = Some open →
  commands !! "close" = Some close →
  commands !! "move_for_cam" = Some move_for_cam →
  stored_steps_well_formed commands →
  answering w →
  ∃ from_data to_data w',
    POSITION_DATA !! Py.lower arg1 = Some from_data ∧
    POSITION_DATA !! Py.lower arg2 = Some to_data ∧
    run [program; arg1; arg2] w = (0, w') ∧
    command_json w' = Json commands ∧ server w' = server w ∧
    actions (trace w') =
      actions (trace w) ++
      concat (map session
        [attack; open; source; close; home from_data;
         attack; destination; open; home to_data;
         close; move_for_cam]) ∧
    executions (actions (trace w')) = (executions (actions (trace w)) + 11)%nat.
Proof.
  intros Hv1 Hv2 Hne Hfile Hsrc Hdst Hattack Hopen Hclose Hcam Hwf Hw.
  destruct (validated_is_key _ _ Hv1) as [from_data Hfd].
  destruct (validated_is_key _ _ Hv2) as [to_data Htd].
  exists from_data, to_data.
  destruct (main_reaches_move program arg1 arg2 w "Valid" "Valid" Hv1 Hv2 Hne)
    as (w6 & Emain & Ht & Hs & Hf0).
  unfold run. rewrite Emain.
  assert (Hf : command_json w6 = Json commands) by congruence.
  assert (Hw6 : answering w6) by (intros n; rewrite Hs; apply Hw).
  destruct (move_chess_piece_plan commands (Py.lower arg1) (Py.lower arg2)
              from_data to_data w6 Hf Hw6 Hwf) as (w' & Em & Hs' & Hf' & Ht');
    [eauto | eauto | assumption | assumption |].
  exists w'. rewrite Em.
  split; [exact Hfd|]. split; [exact Htd|]. split; [reflexivity|].
  split; [congruence|]. split; [congruence|].
  assert (Hplan : plan commands (Py.lower arg1) (Py.lower arg2) from_data to_data =
                  concat (map session
                    [attack; open; source; close; home from_data;
                     attack; destination; open; home to_data;
                     close; move_for_cam])).
  { unfold plan, stage.
    rewrite Hsrc, Hdst, Hattack, Hopen, Hclose, Hcam.
    cbn [map concat]. rewrite app_nil_r. reflexivity. }
  rewrite Hplan, Ht in Ht'. split; [exact Ht'|].
  rewrite Ht', executions_app, executions_sessions. reflexivity.
Qed.

Lemma run_completes_move_witness :
  ∃ w', run ["app.py"; "D7"; "D5"] (start (Json demo_commands) always_ok) = (0, w') ∧
        executions (actions (trace w')) = 11%nat.
Proof.
  destruct (run_completes_move demo_commands "app.py" "D7" "D5"
              [tool_step "move_robot" [("move_gripper_up_mm", "20")]]
              [tool_step "control_gripper" [("gripper_openness_pct", "100")]; wait_step 1]
              [tool_step "control_gripper" [("gripper_openness_pct", "0")]]
              [tool_step "move_robot" [("rotate_robot_right_angle", "90")]]
              [tool_step "move_robot" [("move_gripper_forward_mm", "70")]]
              [tool_step "move_robot" [("move_gripper_forward_mm", "150")]]
              (start (Json demo_commands) always_ok))
    as (from_data & to_data & w' & _ & _ & Er & _ & _ & _ & Hn).
  - vm_compute. reflexivity.
  - vm_compute. reflexivity.
  - intros H. discriminate H.
  - reflexivity.
  - vm_compute. reflexivity.
  - vm_compute. reflexivity.
  - vm_compute. reflexivity.
  - vm_compute. reflexivity.
  - vm_compute. reflexivity.
  - vm_compute. reflexivity.
  - apply map_Forall_to_list. vm_compute map_to_list. repeat constructor.
  - intros n. exists "ok". reflexivity.
  - exists w'. split; [exact Er | exact Hn].
Defined.



End WholeRun.

(** ** Malformed steps *)

Section MalformedStep.





End MalformedStep.

(** ** Position details *)

Section PositionDetails.

Lemma rotation_sign_by_column :
  map_Forall
    (fun k e =>
       direction (Py.item k 0) =
       if rotation e =? 0 then ": Direct alignment (no rotation)"
       else if rotation e <? 0 then ": Left rotation"
       else ": Right rotation")
    POSITION_DATA.
Proof.
  apply map_Forall_to_list. vm_compute map_to_list.
  repeat (apply Forall_cons; split; [vm_compute; reflexivity|]). constructor.
Qed.

(** X11. For a position that is not in the table the position details
    print nothing and change nothing. For a position of the table they
    print four lines: the position in upper case, its forward distance, its
    rotation angle, and its column with the direction, which is "Left
    rotation" for columns a, b and c, "Direct alignment" for column d and
    "Right rotation" for columns e to h. Nothing else changes. *)
Theorem position_details (position : string) (w : world) :
  (POSITION_DATA !! position = None →
   print_position_info position w = (Ok tt, w)) ∧
  (∀ data,
     POSITION_DATA !! position = Some data →
     print_position_info position w =
       (Ok tt,
        says [[Text Py.nl; Text "📍 Position "; Text (Py.upper position);
               Text " details:"];
              [Text "   Forward distance: "; Text (Py.str (forward data)); Text "mm"];
              [Text "   Rotation angle: "; Text (Py.str (rotation data)); Text "°"];
              [Text "   Column "; Text (Py.upper (Py.item position 0));
               Text (direction (Py.item position 0))]] w)).
Proof.
  split.
  - intros Hnone. unfold print_position_info. rewrite Hnone. reflexivity.
  - intros data Hdata. unfold print_position_info. rewrite Hdata.
    rewrite (rotation_sign_by_column position data Hdata).
    unfold says, mbind, M_bind, bind.
    destruct (rotation data =? 0), (rotation data <? 0);
      unfold print, log_line; cbn; rewrite <- !app_assoc; reflexivity.
Qed.

Lemma position_details_witness :
  print_position_info "zz" (start Missing always_ok) = (Ok tt, start Missing always_ok) ∧
  print_position_info "b3" (start Missing always_ok) =
    (Ok tt,
     says [[Text Py.nl; Text "📍 Position "; Text "B3"; Text " details:"];
           [Text "   Forward distance: "; Text "297"; Text "mm"];
           [Text "   Rotation angle: "; Text "-45"; Text "°"];
           [Text "   Column "; Text "B"; Text ": Left rotation"]]
          (start Missing always_ok)).
Proof.
  split.
  - apply (proj1 (position_details "zz" (start Missing always_ok))).
    vm_compute. reflexivity.
  - apply (proj2 (position_details "b3" (start Missing always_ok))
             {| forward := 297; rotation := -45 |}).
    vm_compute. reflexivity.
Defined.

End PositionDetails.
